(** * Barrier-report intake pipeline: upload modal, reports route,
      areas route and reports hook

    A shallow embedding of the client-side upload modal (UploadModal:
    isHeicFile, convertHeicToJpeg and the event handlers, with the
    promises they wait for), of the server-side reports route (GET and
    POST over the document store), of the areas route (DELETE) and of the
    useReports hook, each followed by the properties established about
    it. *)

From Stdlib Require Import Bool Arith ZArith QArith List Ascii String Lia.
From Stdlib Require Import Permutation Sorted.
From Stdlib Require Import DecimalString HexadecimalString HexadecimalN.
Import ListNotations.

Open Scope string_scope.
Open Scope bool_scope.

(* ================================================================== *)
(** ** JavaScript string primitives used by the sources *)
(* ================================================================== *)

Module Js.

(** Characters are 8-bit codes; [toLowerCase] acts on the ASCII letters,
    which is all that the suffix tests of the sources depend on. *)
Definition lower_char (c : ascii) : ascii :=
  let n := nat_of_ascii c in
  if (65 <=? n)%nat && (n <=? 90)%nat then ascii_of_nat (n + 32) else c.

Fixpoint toLowerCase (s : string) : string :=
  match s with
  | EmptyString => EmptyString
  | String c r => String (lower_char c) (toLowerCase r)
  end.

(** [s.startsWith(p)] *)
Definition startsWith (s p : string) : bool := String.prefix p s.

(** [s.endsWith(suf)]: some tail of [s] is exactly [suf]. *)
Fixpoint endsWith (s suf : string) : bool :=
  (s =? suf) ||
  match s with
  | EmptyString => false
  | String _ r => endsWith r suf
  end.

(** The anchored pattern [/\.(heic|heif)$/i] tried at one position: the
    whole remainder of the subject has to be the extension. *)
Definition matches_heic_ext (rest : string) : bool :=
  let t := toLowerCase rest in (t =? ".heic") || (t =? ".heif").

(** [s.replace(/\.(heic|heif)$/i, '.jpg')]: the leftmost position where
    the pattern matches is rewritten, a subject without a match is
    returned as it is. *)
Fixpoint replace_heic_ext (s : string) : string :=
  if matches_heic_ext s then ".jpg"
  else match s with
       | EmptyString => EmptyString
       | String c r => String c (replace_heic_ext r)
       end.

Example toLowerCase_mixed : toLowerCase "IMG_01.HeIc" = "img_01.heic".
Proof. reflexivity. Qed.

Example endsWith_suffix : endsWith "photo.heic" ".heic" = true.
Proof. reflexivity. Qed.

Example endsWith_inner : endsWith "photo.heic.png" ".heic" = false.
Proof. reflexivity. Qed.

Example startsWith_prefix : startsWith "image/png" "image/" = true.
Proof. reflexivity. Qed.

Example startsWith_other : startsWith "video/mp4" "image/" = false.
Proof. reflexivity. Qed.

Example replace_upper : replace_heic_ext "IMG_01.HEIC" = "IMG_01.jpg".
Proof. reflexivity. Qed.

Example replace_last_only : replace_heic_ext "a.heic.heif" = "a.heic.jpg".
Proof. reflexivity. Qed.

Example replace_no_match : replace_heic_ext "heic.png" = "heic.png".
Proof. reflexivity. Qed.

(** Truthiness of a [string | null] value: [null] and the empty string
    are falsy. *)
Definition truthy (v : option string) : bool :=
  match v with
  | Some (String _ _) => true
  | _ => false
  end.

End Js.

(* ================================================================== *)
(** ** The types shared by the modal and the route *)
(* ================================================================== *)

Module Types.

Record Coordinates := mkCoordinates { lat : Q; lng : Q }.

Record AnalyzeResponse := mkAnalyze {
  category : string;
  severity : string;
  summary : string;
  confidence : Q
}.

End Types.

(* ================================================================== *)
(** ** Media normalization: isHeicFile and convertHeicToJpeg *)
(* ================================================================== *)

Module Media.

(** A [Blob] is an opaque handle on immutable binary data; [blob_data]
    identifies the data, which the sources never inspect. *)
Record Blob := mkBlob {
  blob_data : N;
  blob_size : Z;
  blob_type : string
}.

(** The parts a [File] is assembled from. An [undefined] part is
    stringified by the [File] constructor. *)
Inductive BlobPart :=
| PartBlob (b : Blob)
| PartString (s : string).

Definition part_size (p : BlobPart) : Z :=
  match p with
  | PartBlob b => blob_size b
  | PartString s => Z.of_nat (String.length s)
  end.

Record File := mkFile {
  name : string;
  type : string;
  size : Z;
  bits : list BlobPart
}.

(** [new File(parts, name, { type })] *)
Definition new_File (parts : list BlobPart) (n ty : string) : File :=
  {| name := n;
     type := ty;
     size := fold_right (fun p acc => (part_size p + acc)%Z) 0%Z parts;
     bits := parts |}.

(** What [heic2any] settles with: a rejection, a single [Blob], or an
    array of them. A failing dynamic import is a rejection as well. *)
Inductive Heic2anyResult :=
| ConvRejected
| ConvBlob (b : Blob)
| ConvBlobs (bs : list Blob).

Definition isHeicFile (file : File) : bool :=
  let name := Js.toLowerCase (name file) in
  let type := Js.toLowerCase (type file) in
  Js.endsWith name ".heic" ||
  Js.endsWith name ".heif" ||
  (type =? "image/heic") ||
  (type =? "image/heif").

(** [blob] is [None] when the converter returned an empty array
    ([convertedBlob[0]] is [undefined]). The result is [None] when the
    promise is rejected. *)
Definition convertHeicToJpeg (file : File) (converted : Heic2anyResult)
  : option (option Blob * File) :=
  match converted with
  | ConvRejected => None
  | _ =>
    let blob :=
      match converted with
      | ConvBlobs bs => hd_error bs
      | ConvBlob b => Some b
      | ConvRejected => None
      end in
    let newFileName := Js.replace_heic_ext (name file) in
    let part :=
      match blob with
      | Some b => PartBlob b
      | None => PartString "undefined"
      end in
    let convertedFile := new_File [part] newFileName "image/jpeg" in
    Some (blob, convertedFile)
  end.

(** The media kind the modal derives from a file's content type
    (handleSubmit, and the preview's choice between [img] and [video]). *)
Definition mediaKind (file : File) : string :=
  if Js.startsWith (type file) "image/" then "image" else "video".

End Media.

(* ================================================================== *)
(** ** The upload modal: state, effects and event handlers *)
(* ================================================================== *)

Module Modal.
Export Types.
Import Media.

Inductive UploadStep := Select | Converting | Location | Analyzing | Review.

Inductive GeoMethod := Auto | Manual.

(** The nine [useState] cells of the component. *)
Record ModalState := mkState {
  step : UploadStep;
  file : option File;
  mediaUrl : option string;
  coordinates : option Coordinates;
  geoMethod : GeoMethod;
  geoError : option string;
  analysis : option AnalyzeResponse;
  isAnalyzing : bool;
  error : option string
}.

Definition initialState : ModalState :=
  {| step := Select; file := None; mediaUrl := None; coordinates := None;
     geoMethod := Auto; geoError := None; analysis := None;
     isAnalyzing := false; error := None |}.

(** The draft handed to [onSubmit]: [Omit<Report, 'id' | 'createdAt'>]. *)
Record ReportDraft := mkDraft {
  d_coordinates : Coordinates;
  d_mediaUrl : string;
  d_mediaType : string;
  d_fileName : string;
  d_fileSize : Z;
  d_analysis : AnalyzeResponse;
  d_geoMethod : GeoMethod
}.

(** Calls that leave the component, in the order they are made. *)
Inductive Effect :=
| CreateObjectURL (url : string)
| RevokeObjectURL (url : string)
| AnalyticsMediaSelected (kind : string)
| AnalyticsAiResultShown (category severity : string) (confidence : Q)
                         (method : GeoMethod)
| FetchAnalyze (f : File)
| OnSubmit (report : ReportDraft)
| OnClose.

(** *** Promises in flight

    handleFileSelect and handleAnalyze are [async]: each runs up to an
    [await] and gives up control; the rest of the handler runs when the
    awaited promise settles, with the locals and the render snapshot the
    handler had when it started. A [Task] is such a rest that waits:

    - [AwaitConversion]: handleFileSelect at
      [await convertHeicToJpeg(selectedFile)]; the rest reads its locals
      [selectedFile] and [isImage];
    - [AwaitPosition]: handleFileSelect at [await getCurrentPosition()];
    - [AwaitFetch]: handleAnalyze at [await fetch('/api/analyze', ...)];
      the rest reads [geoMethod] of the render handleAnalyze was created
      in. Nothing is written between this [await] and the
      [await response.json()] that follows it, so the two are settled as
      one. *)
Inductive Task :=
| AwaitConversion (selectedFile : File) (isImage : bool)
| AwaitPosition
| AwaitFetch (geoMethod : GeoMethod).

Record World := mkWorld {
  ui : ModalState;
  effects : list Effect;
  pending : list Task
}.

Definition initialWorld : World :=
  {| ui := initialState; effects := []; pending := [] |}.

(** *** A state monad over [World] *)

Definition M (A : Type) : Type := World -> A * World.

Definition ret {A} (a : A) : M A := fun w => (a, w).

Definition bind {A B} (c : M A) (k : A -> M B) : M B :=
  fun w => let (a, w') := c w in k a w'.

Notation "x <- c ;; k" := (bind c (fun x => k))
  (at level 61, c at next level, right associativity).
Notation "c ;; k" := (bind c (fun _ => k))
  (at level 61, right associativity).

Definition exec {A} (c : M A) (w : World) : World := snd (c w).

Definition modify (f : ModalState -> ModalState) : M unit :=
  fun w => (tt, {| ui := f (ui w); effects := effects w;
                   pending := pending w |}).

Definition emit (e : Effect) : M unit :=
  fun w => (tt, {| ui := ui w; effects := effects w ++ [e];
                   pending := pending w |}).

(** The handler stops at an [await]: what is left of it waits. *)
Definition await (t : Task) : M unit :=
  fun w => (tt, {| ui := ui w; effects := effects w;
                   pending := pending w ++ [t] |}).

Definition when (b : bool) (c : M unit) : M unit := if b then c else ret tt.

(** The state setters returned by [useState]. *)
Definition setStep v := modify (fun s =>
  mkState v (file s) (mediaUrl s) (coordinates s) (geoMethod s) (geoError s)
          (analysis s) (isAnalyzing s) (error s)).
Definition setFile v := modify (fun s =>
  mkState (step s) v (mediaUrl s) (coordinates s) (geoMethod s) (geoError s)
          (analysis s) (isAnalyzing s) (error s)).
Definition setMediaUrl v := modify (fun s =>
  mkState (step s) (file s) v (coordinates s) (geoMethod s) (geoError s)
          (analysis s) (isAnalyzing s) (error s)).
Definition setCoordinates v := modify (fun s =>
  mkState (step s) (file s) (mediaUrl s) v (geoMethod s) (geoError s)
          (analysis s) (isAnalyzing s) (error s)).
Definition setGeoMethod v := modify (fun s =>
  mkState (step s) (file s) (mediaUrl s) (coordinates s) v (geoError s)
          (analysis s) (isAnalyzing s) (error s)).
Definition setGeoError v := modify (fun s =>
  mkState (step s) (file s) (mediaUrl s) (coordinates s) (geoMethod s) v
          (analysis s) (isAnalyzing s) (error s)).
Definition setAnalysis v := modify (fun s =>
  mkState (step s) (file s) (mediaUrl s) (coordinates s) (geoMethod s)
          (geoError s) v (isAnalyzing s) (error s)).
Definition setIsAnalyzing v := modify (fun s =>
  mkState (step s) (file s) (mediaUrl s) (coordinates s) (geoMethod s)
          (geoError s) (analysis s) v (error s)).
Definition setError v := modify (fun s =>
  mkState (step s) (file s) (mediaUrl s) (coordinates s) (geoMethod s)
          (geoError s) (analysis s) (isAnalyzing s) v).

(** [URL.createObjectURL]: the browser mints a URL in the [blob:] scheme;
    [minted] stands for the part of it that the browser chooses. *)
Definition createObjectURL (minted : string) : M string :=
  let url := "blob:" ++ minted in
  emit (CreateObjectURL url) ;; ret url.

(** [if (mediaUrl) URL.revokeObjectURL(mediaUrl)] *)
Definition revokeIfHeld (mediaUrl : option string) : M unit :=
  match mediaUrl with
  | Some u => when (Js.truthy mediaUrl) (emit (RevokeObjectURL u))
  | None => ret tt
  end.

(** A handler closes over the state of the render it was created in: it
    receives that snapshot as [s] and reads state only through it, while
    its setter calls go through the monad. *)
Definition Handler : Type := ModalState -> M unit.

Definition resetState : Handler := fun s =>
  setStep Select ;;
  setFile None ;;
  revokeIfHeld (mediaUrl s) ;;
  setMediaUrl None ;;
  setCoordinates None ;;
  setGeoMethod Auto ;;
  setGeoError None ;;
  setAnalysis None ;;
  setIsAnalyzing false ;;
  setError None.

Definition handleClose : Handler := fun s =>
  resetState s ;;
  emit OnClose.

Definition MAX_SIZE : Z := 20 * 1024 * 1024.

(** handleFileSelect from [setFile(processedFile)] to
    [await getCurrentPosition()]: where both branches of the conversion
    test meet. *)
Definition proceed (processedFile : File) (processedUrl : string)
    (isImage : bool) : M unit :=
  setFile (Some processedFile) ;;
  setMediaUrl (Some processedUrl) ;;
  emit (AnalyticsMediaSelected (if isImage then "image" else "video")) ;;
  setStep Location ;;
  await AwaitPosition.

(** handleFileSelect up to its first [await]. [e] is
    [e.target.files?.[0]]; [minted] is the URL the browser mints, when
    the handler gets as far as creating one. *)
Definition handleFileSelect (e : option File) (minted : string)
  : Handler := fun _ =>
  match e with
  | None => ret tt
  | Some selectedFile =>
    let isHeic := isHeicFile selectedFile in
    let isImage := Js.startsWith (type selectedFile) "image/" || isHeic in
    let isVideo := Js.startsWith (type selectedFile) "video/" in
    if negb isImage && negb isVideo then
      setError (Some "Please select an image or video file")
    else if (size selectedFile >? MAX_SIZE)%Z then
      setError (Some "File must be under 20MB")
    else
      setError None ;;
      if isHeic then
        setStep Converting ;;
        await (AwaitConversion selectedFile isImage)
      else
        processedUrl <- createObjectURL minted ;;
        proceed selectedFile processedUrl isImage
  end.

(** The rest of handleFileSelect once [convertHeicToJpeg] has settled
    with [converted]. A conversion without a blob makes
    [URL.createObjectURL] throw, which the same [catch] handles. *)
Definition afterConversion (selectedFile : File) (isImage : bool)
    (converted : Heic2anyResult) (minted : string) : M unit :=
  match convertHeicToJpeg selectedFile converted with
  | Some (Some blob, convertedFile) =>
      processedUrl <- createObjectURL minted ;;
      proceed convertedFile processedUrl isImage
  | _ =>
      setError (Some "Failed to convert HEIC image. Please try a different format.") ;;
      setStep Select
  end.

(** The rest of handleFileSelect once [getCurrentPosition] has settled:
    with a position, or rejected ([None]). *)
Definition afterPosition (pos : option Coordinates) : M unit :=
  match pos with
  | Some p =>
      setCoordinates (Some p) ;;
      setGeoMethod Auto ;;
      setGeoError None
  | None =>
      setGeoError (Some "Could not get your location. Pan the map to set location.") ;;
      setGeoMethod Manual
  end.

Definition isAuto (m : GeoMethod) : bool :=
  match m with Auto => true | Manual => false end.

Definition isNull {A} (v : option A) : bool :=
  match v with None => true | Some _ => false end.

Definition handleCenterChange (coords : Coordinates) : Handler := fun s =>
  setCoordinates (Some coords) ;;
  (if isAuto (geoMethod s) && isNull (geoError s) then
     (* Keep auto if this is the initial position from geolocation *)
     ret tt
   else
     setGeoMethod Manual) ;;
  setGeoError None.

(** How the request to [/api/analyze] ends: [fetch] rejects; or it
    resolves with a response whose [ok] flag is given, and whose body
    parses to a judgment or fails to parse. *)
Inductive FetchOutcome :=
| NetworkError
| Response (ok : bool) (json : option AnalyzeResponse).

(** handleAnalyze up to [await fetch(...)]. *)
Definition handleAnalyze : Handler := fun s =>
  match file s, coordinates s with
  | Some f, Some _ =>
      setStep Analyzing ;;
      setIsAnalyzing true ;;
      setError None ;;
      emit (FetchAnalyze f) ;;
      await (AwaitFetch (geoMethod s))
  | _, _ => ret tt
  end.

(** The rest of handleAnalyze once the request has ended: the [try]
    after the [await], the [catch] and the [finally]. [geoMethod] is the
    one handleAnalyze closed over. *)
Definition afterFetch (geoMethod : GeoMethod) (outcome : FetchOutcome)
  : M unit :=
  match outcome with
  | Response true (Some result) =>
      setAnalysis (Some result) ;;
      setStep Review ;;
      emit (AnalyticsAiResultShown (category result) (severity result)
                                   (confidence result) geoMethod)
  | _ =>
      setError (Some "Failed to analyze media. Please try again.") ;;
      setStep Location
  end ;;
  setIsAnalyzing false.

Definition handleSubmit : Handler := fun s =>
  match file s, mediaUrl s, coordinates s, analysis s with
  | Some f, Some url, Some c, Some a =>
      if Js.truthy (mediaUrl s) then
        let report :=
          {| d_coordinates := c;
             d_mediaUrl := url;
             d_mediaType := mediaKind f;
             d_fileName := name f;
             d_fileSize := size f;
             d_analysis := a;
             d_geoMethod := geoMethod s |} in
        emit (OnSubmit report) ;;
        resetState s ;;
        emit OnClose
      else ret tt
  | _, _, _, _ => ret tt
  end.

Definition handleBackFromLocation : Handler := fun s =>
  setStep Select ;;
  setFile None ;;
  revokeIfHeld (mediaUrl s) ;;
  setMediaUrl None ;;
  setCoordinates None ;;
  setGeoError None.

(** The [Back] button of the review step: [() => setStep('location')]. *)
Definition handleBackFromReview : Handler := fun _ => setStep Location.

(** *** Events and runs *)

(** What a promise settles with: the converter's result and the URL the
    browser mints for it, the position, the end of the request. *)
Inductive Settlement :=
| Converted (converted : Heic2anyResult) (minted : string)
| Positioned (pos : option Coordinates)
| Fetched (outcome : FetchOutcome).

(** The rest of a handler that waits, for what its promise settles
    with. *)
Definition resume (t : Task) (r : Settlement) : option (M unit) :=
  match t, r with
  | AwaitConversion selectedFile isImage, Converted converted minted =>
      Some (afterConversion selectedFile isImage converted minted)
  | AwaitPosition, Positioned pos => Some (afterPosition pos)
  | AwaitFetch geoMethod, Fetched outcome => Some (afterFetch geoMethod outcome)
  | _, _ => None
  end.

Fixpoint remove_nth {A} (n : nat) (l : list A) : list A :=
  match n, l with
  | _, [] => []
  | O, _ :: rest => rest
  | S n', x :: rest => x :: remove_nth n' rest
  end.

(** The [n]-th of the promises in flight settles: the rest of its
    handler runs to its next [await] or to its end. *)
Definition settle (n : nat) (r : Settlement) (w : World) : World :=
  match nth_error (pending w) n with
  | Some t =>
      match resume t r with
      | Some rest =>
          exec rest {| ui := ui w; effects := effects w;
                       pending := remove_nth n (pending w) |}
      | None => w
      end
  | None => w
  end.

(** The events of the component: a control fires its handler, or a
    promise in flight settles. *)
Inductive Event :=
| FileSelect (e : option File) (minted : string)
| CenterChange (coords : Coordinates)
| Analyze
| Submit
| BackFromLocation
| BackFromReview
| Close
| Settles (n : nat) (r : Settlement).

(** An event of a control is dispatched to the handler of the current
    render, which runs to its first [await] or to its end. *)
Definition dispatch (ev : Event) (w : World) : World :=
  match ev with
  | FileSelect e minted => exec (handleFileSelect e minted (ui w)) w
  | CenterChange coords => exec (handleCenterChange coords (ui w)) w
  | Analyze => exec (handleAnalyze (ui w)) w
  | Submit => exec (handleSubmit (ui w)) w
  | BackFromLocation => exec (handleBackFromLocation (ui w)) w
  | BackFromReview => exec (handleBackFromReview (ui w)) w
  | Close => exec (handleClose (ui w)) w
  | Settles n r => settle n r w
  end.

Definition run (evs : list Event) (w : World) : World :=
  fold_left (fun w ev => dispatch ev w) evs w.

Definition step_eqb (a b : UploadStep) : bool :=
  match a, b with
  | Select, Select | Converting, Converting | Location, Location
  | Analyzing, Analyzing | Review, Review => true
  | _, _ => false
  end.

(** Which event can occur in which world. While the modal is open
    ([isOpen] is the parent's; the component keeps its state and the
    promises it waits for while it is closed), a control fires when it
    is rendered and not disabled: the file input in [select]; the map,
    its back button and the confirm button in [location]; back and
    submit in [review]; the close button in every step but [location].
    A promise in flight settles at any time, with a settlement of its
    kind. *)
Definition offered (w : World) (ev : Event) : bool :=
  match ev with
  | FileSelect _ _ => step_eqb (step (ui w)) Select
  | CenterChange _ => step_eqb (step (ui w)) Location
  | Analyze =>
      step_eqb (step (ui w)) Location && negb (isNull (coordinates (ui w)))
      && negb (isAnalyzing (ui w))
  | Submit => step_eqb (step (ui w)) Review
  | BackFromLocation => step_eqb (step (ui w)) Location
  | BackFromReview => step_eqb (step (ui w)) Review
  | Close => negb (step_eqb (step (ui w)) Location)
  | Settles n r =>
      match nth_error (pending w) n with
      | Some t => negb (isNull (resume t r))
      | None => false
      end
  end.

(** The worlds the modal goes through: events are taken one at a time,
    and between the start of an async handler and the settling of its
    promise any other event that is offered may occur. *)
Inductive reachable : World -> Prop :=
| reach_init : reachable initialWorld
| reach_step w ev :
    reachable w -> offered w ev = true -> reachable (dispatch ev w).

Definition revoked (w : World) (u : string) : Prop :=
  In (RevokeObjectURL u) (effects w).

Definition created (w : World) (u : string) : Prop :=
  In (CreateObjectURL u) (effects w).

End Modal.

(* ================================================================== *)
(** ** The reports route: GET and POST over the document store *)
(* ================================================================== *)

Module Route.
Export Types.

Local Open Scope list_scope.

(** JSON values, as passed to [NextResponse.json]. *)
#[warnings="-register-all"]
Inductive JSON :=
| JNull
| JBool (b : bool)
| JNum (q : Q)
| JStr (s : string)
| JArr (items : list JSON)
| JObj (fields : list (string * JSON)).

(** [o.k] on an object literal; [None] is [undefined]. *)
Fixpoint lookup (k : string) (fields : list (string * JSON)) : option JSON :=
  match fields with
  | [] => None
  | (k', v) :: rest => if k' =? k then Some v else lookup k rest
  end.

Definition get (k : string) (v : JSON) : option JSON :=
  match v with
  | JObj fields => lookup k fields
  | _ => None
  end.

(** A property whose value is [undefined] is left out on serialization. *)
Definition prop (k : string) (v : option JSON) : list (string * JSON) :=
  match v with
  | Some j => [(k, j)]
  | None => []
  end.

(** A [Date] is its time value, in milliseconds since the epoch. *)
Definition Date := Z.

(** The destructured request body. *)
Record Body := mkBody {
  coordinates : Coordinates;
  mediaUrl : string;
  mediaType : string;
  fileName : string;
  fileSize : Z;
  analysis : AnalyzeResponse;
  geoMethod : string
}.

(** GeoJSON geometries of the stored documents. *)
Record GeoPoint := mkPoint {
  point_type : string;
  point_coordinates : list Q
}.

Record GeoPolygon := mkPolygon {
  polygon_type : string;
  polygon_coordinates : list (list (list Q))
}.

Record DbMedia := mkMedia {
  media_type : string;
  media_url : string;
  media_fileName : string;
  media_fileSize : Z
}.

Record Routing := mkRouting {
  assignedAreaId : string;
  matchedBy : string;
  matchedAt : Date
}.

Record HttpResponse := mkResponse {
  status_code : Z;
  body : JSON
}.

Section Store.

(** *** What the route takes from the platform and the store

    The identifiers of the store and their rendering
    ([ObjectId.toString]), [Date.prototype.toISOString], and the store's
    [$geoIntersects] predicate between a polygon and a point. *)
Variable ObjectId : Type.
Variable oid_eqb : ObjectId -> ObjectId -> bool.
Variable oid_toString : ObjectId -> string.
Variable toISOString : Date -> string.
Variable geoIntersects : GeoPolygon -> GeoPoint -> bool.

Record DbReport := mkReport {
  _id : option ObjectId;
  createdAt : Date;
  updatedAt : Date;
  location : GeoPoint;
  media : DbMedia;
  ai : AnalyzeResponse;
  report_geoMethod : string;
  status : string;
  routing : option Routing
}.

Record Area := mkArea {
  area_id : ObjectId;
  polygon : GeoPolygon;
  isActive : bool
}.

(** The two collections, each in its natural (insertion) order. *)
Record Database := mkDb {
  areas : list Area;
  reports : list DbReport
}.

(** *** The store's operations *)

(** [collection.findOne(filter)]: the first document that passes. *)
Definition findOne {A} (filter : A -> bool) (coll : list A) : option A :=
  List.find filter coll.

Definition has_id (i : ObjectId) (r : DbReport) : bool :=
  match _id r with
  | Some j => oid_eqb j i
  | None => false
  end.

(** [collection.insertOne(doc)]: the driver gives the document the
    identifier it has generated; the store refuses an [_id] that the
    collection already holds (the promise is rejected, [None]). *)
Definition insertOne (generated : ObjectId) (doc : DbReport)
    (coll : list DbReport) : option (list DbReport * ObjectId) :=
  if existsb (has_id generated) coll then None
  else
    let stored :=
      mkReport (Some generated) (createdAt doc) (updatedAt doc) (location doc)
               (media doc) (ai doc) (report_geoMethod doc) (status doc)
               (routing doc) in
    Some (coll ++ [stored], generated).

(** [find({}).sort({ createdAt: -1 }).toArray()]: every document, by
    descending [createdAt]. The store promises no order among documents
    with equal keys; this insertion sort keeps them in their natural
    order. *)
Fixpoint insert_desc (r : DbReport) (sorted : list DbReport) : list DbReport :=
  match sorted with
  | [] => [r]
  | x :: rest =>
      if (createdAt x <=? createdAt r)%Z then r :: sorted
      else x :: insert_desc r rest
  end.

Definition sort_createdAt_desc (coll : list DbReport) : list DbReport :=
  fold_right insert_desc [] coll.

(** *** GET /api/reports *)

Definition transformReport (report : DbReport) : JSON :=
  JObj (
    prop "id" (option_map (fun i => JStr (oid_toString i)) (_id report)) ++
    [ ("createdAt", JStr (toISOString (createdAt report)));
      ("coordinates", JObj (
         prop "lat" (option_map JNum (nth_error (point_coordinates (location report)) 1)) ++
         prop "lng" (option_map JNum (nth_error (point_coordinates (location report)) 0))));
      ("mediaUrl", JStr (media_url (media report)));
      ("mediaType", JStr (media_type (media report)));
      ("fileName", JStr (media_fileName (media report)));
      ("fileSize", JNum (inject_Z (media_fileSize (media report))));
      ("analysis", JObj [
         ("category", JStr (category (ai report)));
         ("severity", JStr (severity (ai report)));
         ("summary", JStr (summary (ai report)));
         ("confidence", JNum (confidence (ai report))) ]);
      ("geoMethod", JStr (report_geoMethod report));
      ("status", JStr (status report)) ]).

(** [connected] tells whether [getDatabase] and the query resolve. *)
Definition GET (connected : bool) (db : Database) : HttpResponse :=
  if connected then
    let reports := sort_createdAt_desc (reports db) in
    let transformedReports := map transformReport reports in
    {| status_code := 200; body := JArr transformedReports |}
  else
    {| status_code := 500;
       body := JObj [("error", JStr "Failed to fetch reports")] |}.

(** *** POST /api/reports *)

(** The document built from the request body at time [now]. *)
Definition newReport (now : Date) (b : Body) : DbReport :=
  {| _id := None;
     createdAt := now;
     updatedAt := now;
     location := {| point_type := "Point";
                    point_coordinates := [lng (coordinates b); lat (coordinates b)] |};
     media := {| media_type := mediaType b;
                 media_url := mediaUrl b;
                 media_fileName := fileName b;
                 media_fileSize := fileSize b |};
     ai := {| category := category (analysis b);
              severity := severity (analysis b);
              summary := summary (analysis b);
              confidence := confidence (analysis b) |};
     report_geoMethod := geoMethod b;
     status := "open";
     routing := None |}.

(** The [findOne] on the areas collection. *)
Definition findMatchingArea (db : Database) (report : DbReport) : option Area :=
  findOne (fun a => geoIntersects (polygon a) (location report) && isActive a)
          (areas db).

(** [if (matchingArea) { report.routing = ... }] *)
Definition assignRouting (now : Date) (matchingArea : option Area)
    (report : DbReport) : DbReport :=
  match matchingArea with
  | Some a =>
      mkReport (_id report) (createdAt report) (updatedAt report)
               (location report) (media report) (ai report)
               (report_geoMethod report) (status report)
               (Some {| assignedAreaId := oid_toString (area_id a);
                        matchedBy := "geoWithin";
                        matchedAt := now |})
  | None => report
  end.

(** The report in frontend format. *)
Definition createdReport (insertedId : ObjectId) (report : DbReport)
    (coordinates : Coordinates) : JSON :=
  JObj [
    ("id", JStr (oid_toString insertedId));
    ("createdAt", JStr (toISOString (createdAt report)));
    ("coordinates", JObj [ ("lat", JNum (lat coordinates));
                           ("lng", JNum (lng coordinates)) ]);
    ("mediaUrl", JStr (media_url (media report)));
    ("mediaType", JStr (media_type (media report)));
    ("fileName", JStr (media_fileName (media report)));
    ("fileSize", JNum (inject_Z (media_fileSize (media report))));
    ("analysis", JObj [
       ("category", JStr (category (ai report)));
       ("severity", JStr (severity (ai report)));
       ("summary", JStr (summary (ai report)));
       ("confidence", JNum (confidence (ai report))) ]);
    ("geoMethod", JStr (report_geoMethod report));
    ("status", JStr (status report)) ].

Definition creationFailed : HttpResponse :=
  {| status_code := 500;
     body := JObj [("error", JStr "Failed to create report")] |}.

(** What a request meets: whether [getDatabase] resolves, whether the
    store answers the [findOne] and the [insertOne] (a promise that is
    rejected lands in the [catch]), the time read by [new Date()], and
    the identifier the driver generates. *)
Record Env := mkEnv {
  connected : bool;
  findOne_resolves : bool;
  insertOne_resolves : bool;
  now : Date;
  generated : ObjectId
}.

Definition answers (env : Env) : bool :=
  connected env && findOne_resolves env && insertOne_resolves env.

(** [request] is the parsed body; [None] when [request.json()] is
    rejected or the body lacks the [coordinates] or [analysis] object
    (reading a property of [undefined] throws). The handler runs from
    its first line to its response. *)
Definition POST (env : Env) (request : option Body) (db : Database)
  : Database * HttpResponse :=
  match request with
  | None => (db, creationFailed)
  | Some b =>
      if connected env then
        let report := newReport (now env) b in
        if findOne_resolves env then
          let matchingArea := findMatchingArea db report in
          let report := assignRouting (now env) matchingArea report in
          if insertOne_resolves env then
            match insertOne (generated env) report (reports db) with
            | Some (reports', insertedId) =>
                ({| areas := areas db; reports := reports' |},
                 {| status_code := 201;
                    body := createdReport insertedId report (coordinates b) |})
            | None => (db, creationFailed)
            end
          else (db, creationFailed)
        else (db, creationFailed)
      else (db, creationFailed)
  end.

(** *** Requests in flight

    A POST handler gives up control at each [await]. Between the read of
    the clock and the insertion, other handlers may run: [Begin] runs a
    handler up to its [findOne], [Routed] from there up to its
    [insertOne], [Inserted] to the response; [Rejected] is the store
    rejecting the operation the handler waits for. *)
Inductive Pending :=
| AwaitFindOne (b : Body) (now : Date) (report : DbReport)
| AwaitInsertOne (b : Body) (report : DbReport).

Record Server := mkServer {
  clock : Date;
  db : Database;
  inflight : list (nat * Pending);
  responses : list (nat * HttpResponse)
}.

Inductive Action :=
| Tick (elapsed : N)
| Begin (rid : nat) (b : Body)
| Routed (rid : nat)
| Inserted (rid : nat) (generated : ObjectId)
| Rejected (rid : nat)
| List (rid : nat).

Fixpoint take_pending (rid : nat) (l : list (nat * Pending))
  : option (Pending * list (nat * Pending)) :=
  match l with
  | [] => None
  | (r, p) :: rest =>
      if Nat.eqb r rid then Some (p, rest)
      else match take_pending rid rest with
           | Some (q, rest') => Some (q, (r, p) :: rest')
           | None => None
           end
  end.

Definition act (a : Action) (s : Server) : Server :=
  match a with
  | Tick elapsed =>
      mkServer (clock s + Z.of_N elapsed)%Z (db s) (inflight s) (responses s)
  | Begin rid b =>
      let now := clock s in
      mkServer (clock s) (db s)
               (inflight s ++ [(rid, AwaitFindOne b now (newReport now b))])
               (responses s)
  | Routed rid =>
      match take_pending rid (inflight s) with
      | Some (AwaitFindOne b now report, rest) =>
          let matchingArea := findMatchingArea (db s) report in
          mkServer (clock s) (db s)
                   (rest ++ [(rid, AwaitInsertOne b (assignRouting now matchingArea report))])
                   (responses s)
      | _ => s
      end
  | Inserted rid generated =>
      match take_pending rid (inflight s) with
      | Some (AwaitInsertOne b report, rest) =>
          match insertOne generated report (reports (db s)) with
          | Some (reports', insertedId) =>
              mkServer (clock s)
                       {| areas := areas (db s); reports := reports' |}
                       rest
                       (responses s ++
                        [(rid, {| status_code := 201;
                                  body := createdReport insertedId report (coordinates b) |})])
          | None =>
              mkServer (clock s) (db s) rest
                       (responses s ++ [(rid, creationFailed)])
          end
      | _ => s
      end
  | Rejected rid =>
      match take_pending rid (inflight s) with
      | Some (_, rest) =>
          mkServer (clock s) (db s) rest
                   (responses s ++ [(rid, creationFailed)])
      | None => s
      end
  | List rid =>
      mkServer (clock s) (db s) (inflight s)
               (responses s ++ [(rid, GET true (db s))])
  end.

Definition serve (actions : list Action) (s : Server) : Server :=
  fold_left (fun s a => act a s) actions s.

(** *** Properties of the store's operations *)

(** Newer reports stand before older ones. *)
Definition newerFirst (a b : DbReport) : Prop := (createdAt b <= createdAt a)%Z.

Lemma insert_desc_perm (r : DbReport) (l : list DbReport) :
  Permutation (insert_desc r l) (r :: l).
Proof.
  induction l as [|x l IH]; cbn [insert_desc]; [reflexivity|].
  destruct (createdAt x <=? createdAt r)%Z; [reflexivity|].
  rewrite IH. apply perm_swap.
Qed.

Lemma sort_createdAt_desc_perm (l : list DbReport) :
  Permutation (sort_createdAt_desc l) l.
Proof.
  induction l as [|x l IH]; cbn; [reflexivity|].
  rewrite insert_desc_perm. now rewrite IH.
Qed.

Lemma insert_desc_sorted (r : DbReport) (l : list DbReport) :
  StronglySorted newerFirst l -> StronglySorted newerFirst (insert_desc r l).
Proof.
  induction 1 as [|x l Hl IH Hx]; cbn [insert_desc].
  - repeat constructor.
  - destruct (createdAt x <=? createdAt r)%Z eqn:E.
    + apply Z.leb_le in E. constructor; [now constructor|].
      constructor; [exact E|].
      eapply Forall_impl; [|exact Hx]. unfold newerFirst. cbn. intros; lia.
    + apply Z.leb_gt in E. constructor; [exact IH|].
      eapply Permutation_Forall; [symmetry; apply insert_desc_perm|].
      constructor; [unfold newerFirst; lia | exact Hx].
Qed.

Lemma sort_createdAt_desc_sorted (l : list DbReport) :
  StronglySorted newerFirst (sort_createdAt_desc l).
Proof.
  induction l as [|x l IH]; cbn; [constructor|].
  now apply insert_desc_sorted.
Qed.

(** A report inserted last with a time strictly later than every other
    report's is listed first. *)
Lemma sort_createdAt_desc_newest (older : list DbReport) (r : DbReport) :
  Forall (fun o => (createdAt o < createdAt r)%Z) older ->
  sort_createdAt_desc (older ++ [r]) = r :: sort_createdAt_desc older.
Proof.
  induction 1 as [|o older Ho _ IH]; [reflexivity|].
  cbn [app sort_createdAt_desc fold_right].
  fold (sort_createdAt_desc (older ++ [r])). rewrite IH.
  fold (sort_createdAt_desc older). cbn [insert_desc].
  destruct (createdAt r <=? createdAt o)%Z eqn:E; [|reflexivity].
  apply Z.leb_le in E. lia.
Qed.

(** The identifiers held by a collection. *)
Definition ids (coll : list DbReport) : list ObjectId :=
  flat_map (fun r => match _id r with Some i => [i] | None => [] end) coll.

(** The document as the store holds it after [insertOne]. *)
Definition stored (i : ObjectId) (doc : DbReport) : DbReport :=
  mkReport (Some i) (createdAt doc) (updatedAt doc) (location doc)
           (media doc) (ai doc) (report_geoMethod doc) (status doc)
           (routing doc).

(** The document a POST with body [b] persists. *)
Definition persisted (env : Env) (b : Body) (db : Database) : DbReport :=
  stored (generated env)
         (assignRouting (now env)
                        (findMatchingArea db (newReport (now env) b))
                        (newReport (now env) b)).

(** Every 201 of POST comes from the one path that inserts. *)
Lemma POST_201_inv (env : Env) (request : option Body) (db db' : Database)
    (resp : HttpResponse) :
  POST env request db = (db', resp) ->
  status_code resp = 201%Z ->
  exists b,
    request = Some b /\
    answers env = true /\
    existsb (has_id (generated env)) (reports db) = false /\
    db' = {| areas := areas db;
             reports := reports db ++ [persisted env b db] |} /\
    resp = {| status_code := 201;
              body := createdReport (generated env) (persisted env b db)
                                    (coordinates b) |}.
Proof.
  unfold POST, creationFailed, answers. intros H Hs.
  destruct request as [b|]; [|injection H as <- <-; discriminate].
  destruct (connected env); [|injection H as <- <-; discriminate].
  destruct (findOne_resolves env); [|injection H as <- <-; discriminate].
  destruct (insertOne_resolves env); [|injection H as <- <-; discriminate].
  unfold insertOne in H.
  destruct (existsb (has_id (generated env)) (reports db)) eqn:E;
    [injection H as <- <-; discriminate|].
  injection H as <- <-. exists b. repeat split.
Qed.

(** The other way round: a parsed body, a store that answers and an
    unused identifier give a 201 and a persisted report. *)
Lemma POST_succeeds (env : Env) (b : Body) (db : Database) :
  answers env = true ->
  existsb (has_id (generated env)) (reports db) = false ->
  POST env (Some b) db =
  ({| areas := areas db; reports := reports db ++ [persisted env b db] |},
   {| status_code := 201;
      body := createdReport (generated env) (persisted env b db)
                            (coordinates b) |}).
Proof.
  unfold answers. intros Hc Hn.
  apply andb_true_iff in Hc as [Hc Hi]. apply andb_true_iff in Hc as [Hc Hf].
  unfold POST, insertOne. rewrite Hc, Hf, Hi, Hn. reflexivity.
Qed.

(** A POST that fails leaves the store as it was. *)
Lemma POST_failure_keeps_store (env : Env) (request : option Body)
    (db db' : Database) (resp : HttpResponse) :
  POST env request db = (db', resp) ->
  status_code resp <> 201%Z -> db' = db.
Proof.
  unfold POST, creationFailed, insertOne. intros H Hs.
  destruct request as [b|]; [|now injection H as <- <-].
  destruct (connected env); [|now injection H as <- <-].
  destruct (findOne_resolves env); [|now injection H as <- <-].
  destruct (insertOne_resolves env); [|now injection H as <- <-].
  destruct (existsb (has_id (generated env)) (reports db));
    injection H as <- <-; [reflexivity|].
  now contradiction Hs.
Qed.

(** *** Routing on creation (C1) *)

(** The area contains the report's point, by the store's predicate. *)
Definition containsPoint (a : Area) (report : DbReport) : bool :=
  geoIntersects (polygon a) (location report).

Lemma findMatchingArea_Some (db : Database) (report : DbReport) (a : Area) :
  findMatchingArea db report = Some a ->
  In a (areas db) /\ isActive a = true /\ containsPoint a report = true.
Proof.
  unfold findMatchingArea, findOne, containsPoint. intros H.
  apply find_some in H as [Hin Hf]. apply andb_true_iff in Hf. tauto.
Qed.

Lemma findMatchingArea_None (db : Database) (report : DbReport) :
  findMatchingArea db report = None ->
  forall a, In a (areas db) -> isActive a = true ->
            containsPoint a report = false.
Proof.
  unfold findMatchingArea, findOne, containsPoint. intros H a Hin Hact.
  pose proof (find_none _ _ H a Hin) as Hf. cbn in Hf.
  rewrite Hact, andb_true_r in Hf. exact Hf.
Qed.

(** C1. A POST that meets a store that answers and an unused identifier
    persists the report and answers 201, whatever the areas are. The
    persisted report is located at the submitted point, longitude first.
    If some active area contains that point, the report carries the
    routing assignment made of the identifier of an active area that
    contains the point, the match basis geoWithin and the time of the
    request; if no active area contains it, the report carries no routing
    assignment. *)
Theorem POST_routes_by_containing_active_area
    (env : Env) (b : Body) (db : Database) :
  answers env = true ->
  existsb (has_id (generated env)) (reports db) = false ->
  exists doc,
    POST env (Some b) db =
      ({| areas := areas db; reports := reports db ++ [doc] |},
       {| status_code := 201;
          body := createdReport (generated env) doc (coordinates b) |}) /\
    location doc =
      {| point_type := "Point";
         point_coordinates := [lng (coordinates b); lat (coordinates b)] |} /\
    ((exists a, In a (areas db) /\ isActive a = true /\
                containsPoint a doc = true) ->
     exists a, In a (areas db) /\ isActive a = true /\
               containsPoint a doc = true /\
               routing doc =
                 Some {| assignedAreaId := oid_toString (area_id a);
                         matchedBy := "geoWithin";
                         matchedAt := now env |}) /\
    ((forall a, In a (areas db) -> isActive a = true ->
                containsPoint a doc = false) ->
     routing doc = None).
Proof.
  intros Hc Hn. exists (persisted env b db).
  split; [now apply POST_succeeds|].
  unfold persisted.
  destruct (findMatchingArea db (newReport (now env) b)) as [a|] eqn:Hm.
  - apply findMatchingArea_Some in Hm as (Hin & Hact & Hcont).
    cbn. split; [reflexivity|]. split.
    + intros _. exists a. repeat split; assumption.
    + intros Hnone. specialize (Hnone a Hin Hact).
      unfold containsPoint in *. cbn in *. congruence.
  - pose proof (findMatchingArea_None _ _ Hm) as Hnone.
    cbn. split; [reflexivity|]. split; [|reflexivity].
    intros (a & Hin & Hact & Hcont). specialize (Hnone a Hin Hact).
    unfold containsPoint in *. cbn in *. congruence.
Qed.

(** *** The response of a creation (C4) *)

(** C4, as the code has it. The body of every 201 is the created report
    in frontend format: the generated identifier, the creation time, the
    submitted coordinates, the media fields, the analysis, the geo method
    and the status, and nothing else. It has no routing property, whether
    or not the persisted report was given a routing assignment. *)
Theorem POST_response_is_frontend_report
    (env : Env) (request : option Body) (db db' : Database)
    (resp : HttpResponse) :
  POST env request db = (db', resp) ->
  status_code resp = 201%Z ->
  exists b,
    request = Some b /\
    body resp =
      JObj [
        ("id", JStr (oid_toString (generated env)));
        ("createdAt", JStr (toISOString (now env)));
        ("coordinates", JObj [ ("lat", JNum (lat (coordinates b)));
                               ("lng", JNum (lng (coordinates b))) ]);
        ("mediaUrl", JStr (mediaUrl b));
        ("mediaType", JStr (mediaType b));
        ("fileName", JStr (fileName b));
        ("fileSize", JNum (inject_Z (fileSize b)));
        ("analysis", JObj [
           ("category", JStr (category (analysis b)));
           ("severity", JStr (severity (analysis b)));
           ("summary", JStr (summary (analysis b)));
           ("confidence", JNum (confidence (analysis b))) ]);
        ("geoMethod", JStr (geoMethod b));
        ("status", JStr "open") ] /\
    get "routing" (body resp) = None.
Proof.
  intros H Hs.
  destruct (POST_201_inv _ _ _ _ _ H Hs) as (b & -> & _ & _ & _ & ->).
  exists b. split; [reflexivity|].
  unfold persisted.
  destruct (findMatchingArea db (newReport (now env) b));
    split; reflexivity.
Qed.

(** *** Listing (C3) *)

(** C3, as the code has it. GET answers with all persisted reports,
    sorted by creation time, newest first. A report that a POST has just
    persisted is the first element of the list when its creation time is
    strictly later than that of every report persisted before it. *)
Theorem GET_lists_newest_first (db' : Database) :
  exists listed,
    GET true db' = {| status_code := 200;
                      body := JArr (map transformReport listed) |} /\
    Permutation listed (reports db') /\
    StronglySorted newerFirst listed /\
    (forall (env : Env) (request : option Body) (db : Database)
            (resp : HttpResponse),
       POST env request db = (db', resp) ->
       status_code resp = 201%Z ->
       Forall (fun o => (createdAt o < now env)%Z) (reports db) ->
       exists doc rest,
         reports db' = reports db ++ [doc] /\
         listed = doc :: rest /\
         get "id" (transformReport doc) = get "id" (body resp)).
Proof.
  exists (sort_createdAt_desc (reports db')).
  split; [reflexivity|].
  split; [apply sort_createdAt_desc_perm|].
  split; [apply sort_createdAt_desc_sorted|].
  intros env request db resp H Hs Hold.
  destruct (POST_201_inv _ _ _ _ _ H Hs) as (b & -> & _ & _ & -> & ->).
  exists (persisted env b db), (sort_createdAt_desc (reports db)).
  assert (Ht : createdAt (persisted env b db) = now env).
  { unfold persisted.
    destruct (findMatchingArea db (newReport (now env) b)); reflexivity. }
  cbn [reports]. split; [reflexivity|]. split; [|reflexivity].
  apply sort_createdAt_desc_newest. now rewrite Ht.
Qed.

(** *** Identity and status of a created report *)

(** What the route relies on from the store's identifiers: [oid_eqb]
    decides equality, and the rendering is injective (it is the
    hexadecimal form of the identifier). *)
Hypothesis oid_eqb_eq : forall i j, oid_eqb i j = true <-> i = j.
Hypothesis oid_toString_inj :
  forall i j, oid_toString i = oid_toString j -> i = j.

Lemma not_held_not_in_ids (i : ObjectId) (coll : list DbReport) :
  existsb (has_id i) coll = false -> ~ In i (ids coll).
Proof.
  intros He Hin. unfold ids in Hin. apply in_flat_map in Hin as (r & Hr & Hi).
  assert (Hh : has_id i r = true).
  { unfold has_id. destruct (_id r) as [j|]; [|contradiction].
    destruct Hi as [-> | []]. now apply oid_eqb_eq. }
  assert (existsb (has_id i) coll = true) by (apply existsb_exists; eauto).
  congruence.
Qed.

(** Whenever a POST changes the reports collection, it has added
    exactly one record, the response code is 201, the record has status
    open, and its identifier is the one the driver generated and the
    response carries; no report that the collection holds at that moment
    has this identifier, also not as rendered in the response. Which
    identifier the driver generates is not the route's to decide:
    nothing is said here about identifiers of reports that the
    collection no longer holds. *)
Theorem POST_creates_open_report_with_unused_id
    (env : Env) (request : option Body) (db db' : Database)
    (resp : HttpResponse) :
  POST env request db = (db', resp) ->
  reports db' <> reports db ->
  status_code resp = 201%Z /\
  exists doc,
    reports db' = reports db ++ [doc] /\
    status doc = "open" /\
    _id doc = Some (generated env) /\
    get "status" (body resp) = Some (JStr "open") /\
    get "id" (body resp) = Some (JStr (oid_toString (generated env))) /\
    ~ In (generated env) (ids (reports db)) /\
    ~ In (oid_toString (generated env)) (map oid_toString (ids (reports db))).
Proof.
  intros H Hch.
  assert (Hs : status_code resp = 201%Z).
  { destruct (Z.eq_dec (status_code resp) 201) as [E|E]; [exact E|].
    apply (POST_failure_keeps_store _ _ _ _ _ H) in E. now subst. }
  split; [exact Hs|].
  destruct (POST_201_inv _ _ _ _ _ H Hs) as (b & -> & _ & Hn & -> & ->).
  exists (persisted env b db).
  assert (Hfresh : ~ In (generated env) (ids (reports db)))
    by now apply not_held_not_in_ids.
  unfold persisted.
  destruct (findMatchingArea db (newReport (now env) b));
    (repeat split; try reflexivity; [exact Hfresh |]);
    intros Hin; apply in_map_iff in Hin as (j & Hj & Hin);
    apply oid_toString_inj in Hj; subst j; contradiction.
Qed.

(** POST never removes or rewrites a persisted report, so every
    identifier given out earlier is still held when the next one is. *)
Lemma POST_only_appends
    (env : Env) (request : option Body) (db db' : Database)
    (resp : HttpResponse) :
  POST env request db = (db', resp) ->
  exists added, reports db' = reports db ++ added /\ areas db' = areas db.
Proof.
  intros H.
  destruct (Z.eq_dec (status_code resp) 201) as [E|E].
  - destruct (POST_201_inv _ _ _ _ _ H E) as (b & _ & _ & _ & -> & _).
    eexists. split; reflexivity.
  - rewrite (POST_failure_keeps_store _ _ _ _ _ H E).
    exists []. now rewrite app_nil_r.
Qed.

(** With distinct identifiers in the store, they stay distinct. *)
Lemma POST_keeps_ids_distinct
    (env : Env) (request : option Body) (db db' : Database)
    (resp : HttpResponse) :
  POST env request db = (db', resp) ->
  NoDup (ids (reports db)) -> NoDup (ids (reports db')).
Proof.
  intros H Hnd.
  destruct (Z.eq_dec (status_code resp) 201) as [E|E].
  - destruct (POST_201_inv _ _ _ _ _ H E) as (b & -> & _ & Hn & -> & _).
    cbn [reports]. unfold ids. rewrite flat_map_app.
    apply NoDup_app; [exact Hnd| |].
    + unfold persisted. cbn. repeat constructor. intros [].
    + intros i Hi Hi2. unfold persisted in Hi2. cbn in Hi2.
      destruct Hi2 as [<- | []].
      now apply (not_held_not_in_ids _ _ Hn).
  - now rewrite (POST_failure_keeps_store _ _ _ _ _ H E).
Qed.

(** *** One handler at a time *)

(** The three steps of a handler, taken with no other request in
    flight, amount to [POST]. *)
Lemma serve_alone_is_POST (s : Server) (rid : nat) (b : Body)
    (oid : ObjectId) :
  inflight s = [] ->
  let env := {| connected := true; findOne_resolves := true;
                insertOne_resolves := true;
                now := clock s; generated := oid |} in
  serve [Begin rid b; Routed rid; Inserted rid oid] s =
  mkServer (clock s) (fst (POST env (Some b) (db s))) []
           (responses s ++ [(rid, snd (POST env (Some b) (db s)))]).
Proof.
  destruct s as [c d i r]. cbn [inflight clock db responses]. intros ->.
  cbn -[insertOne findMatchingArea assignRouting newReport createdReport POST].
  rewrite Nat.eqb_refl.
  cbn -[insertOne findMatchingArea assignRouting newReport createdReport POST].
  rewrite Nat.eqb_refl.
  cbn -[insertOne findMatchingArea assignRouting newReport createdReport POST].
  unfold POST.
  cbn [connected findOne_resolves insertOne_resolves now generated].
  destruct (insertOne oid _ (reports d)) as [[reports' j]|];
    reflexivity.
Qed.

(** *** What a creation answers *)

(** POST answers 201 exactly when the body parses, the store answers and
    the generated identifier is unused; in every other case it answers
    500 with the creation-failure body and the store is as it was: no
    partial report is left behind. *)
Theorem POST_answers_201_or_500
    (env : Env) (request : option Body) (db db' : Database)
    (resp : HttpResponse) :
  POST env request db = (db', resp) ->
  (status_code resp = 201%Z <->
   (exists b, request = Some b) /\ answers env = true /\
   existsb (has_id (generated env)) (reports db) = false) /\
  (status_code resp <> 201%Z -> resp = creationFailed /\ db' = db).
Proof.
  intros H. split; [split|].
  - intros Hs.
    destruct (POST_201_inv _ _ _ _ _ H Hs) as (b & -> & Ha & Hn & _).
    eauto.
  - intros ((b & ->) & Ha & Hn).
    rewrite (POST_succeeds env b db Ha Hn) in H. now injection H as <- <-.
  - intros Hs. split; [|exact (POST_failure_keeps_store _ _ _ _ _ H Hs)].
    revert H Hs. unfold POST, insertOne.
    destruct request as [b|]; [|now intros [= <- <-]].
    destruct (connected env); [|now intros [= <- <-]].
    destruct (findOne_resolves env); [|now intros [= <- <-]].
    destruct (insertOne_resolves env); [|now intros [= <- <-]].
    destruct (existsb (has_id (generated env)) (reports db));
      intros [= <- <-]; [reflexivity|]. intros Hs. now contradiction Hs.
Qed.

(** The report a creation answers with is, as a JSON value, the element
    the list shows for it afterwards: the coordinates stored longitude
    first are read back as the submitted latitude and longitude, and
    identifier, time, media, analysis, geo method and status agree. *)
Theorem created_report_is_listed_verbatim
    (env : Env) (request : option Body) (db db' : Database)
    (resp : HttpResponse) :
  POST env request db = (db', resp) ->
  status_code resp = 201%Z ->
  exists doc listed,
    reports db' = reports db ++ [doc] /\
    transformReport doc = body resp /\
    GET true db' = {| status_code := 200; body := JArr listed |} /\
    In (body resp) listed.
Proof.
  intros H Hs.
  destruct (POST_201_inv _ _ _ _ _ H Hs) as (b & -> & _ & _ & -> & ->).
  exists (persisted env b db),
         (map transformReport
              (sort_createdAt_desc (reports db ++ [persisted env b db]))).
  assert (Ht : transformReport (persisted env b db)
               = createdReport (generated env) (persisted env b db)
                               (coordinates b)).
  { unfold persisted.
    destruct (findMatchingArea db (newReport (now env) b)); reflexivity. }
  cbn [reports body]. split; [reflexivity|]. split; [exact Ht|].
  split; [reflexivity|].
  rewrite <- Ht. apply in_map.
  eapply Permutation_in; [symmetry; apply sort_createdAt_desc_perm|].
  apply in_or_app. right. now left.
Qed.

(** *** Any interleaving of requests *)

(** One action appends at most one report and touches neither the
    persisted reports nor the areas. *)
Lemma act_only_appends (a : Action) (s : Server) :
  areas (db (act a s)) = areas (db s) /\
  (reports (db (act a s)) = reports (db s) \/
   exists rid b report i,
     a = Inserted rid i /\
     existsb (has_id i) (reports (db s)) = false /\
     In (rid, AwaitInsertOne b report) (inflight s) /\
     reports (db (act a s)) = reports (db s) ++ [stored i report]).
Proof.
  destruct a as [elapsed|rid b|rid|rid i|rid|rid]; cbn [act];
    try (split; [reflexivity | left; reflexivity]).
  - destruct (take_pending rid (inflight s)) as [[[b now0 report|b report] rest]|];
      split; try reflexivity; left; reflexivity.
  - destruct (take_pending rid (inflight s))
      as [[[b now0 report|b report] rest]|] eqn:Ht;
      try (split; [reflexivity | left; reflexivity]).
    unfold insertOne.
    destruct (existsb (has_id i) (reports (db s))) eqn:E;
      cbn [db areas reports]; (split; [reflexivity|]); [now left|].
    right. exists rid, b, report, i. repeat split; try assumption.
    clear - Ht. revert rest Ht.
    induction (inflight s) as [|[r q] l IH]; intros rest; cbn; [discriminate|].
    destruct (Nat.eqb r rid) eqn:Er.
    + intros [= -> <-]. apply Nat.eqb_eq in Er. subst. now left.
    + destruct (take_pending rid l) as [[q' rest']|]; [|discriminate].
      intros [= -> <-]. right. exact (IH _ eq_refl).
  - destruct (take_pending rid (inflight s)) as [[p rest]|];
      split; try reflexivity; left; reflexivity.
Qed.

(** Whatever the order in which requests start, wait and complete, the
    server only appends to the reports collection, leaves the areas
    alone, and keeps the identifiers of the persisted reports distinct. *)
Theorem serve_appends_with_distinct_ids (actions : list Action) (s : Server) :
  NoDup (ids (reports (db s))) ->
  areas (db (serve actions s)) = areas (db s) /\
  (exists added, reports (db (serve actions s)) = reports (db s) ++ added) /\
  NoDup (ids (reports (db (serve actions s)))).
Proof.
  revert s. induction actions as [|a actions IH]; intros s Hnd.
  - cbn. repeat split; [exists []; now rewrite app_nil_r | exact Hnd].
  - cbn [serve fold_left]. fold (serve actions (act a s)).
    destruct (act_only_appends a s) as [Ha Hr].
    assert (Hnd' : NoDup (ids (reports (db (act a s))))).
    { destruct Hr as [-> | (rid & b & report & i & _ & Hn & _ & ->)];
        [exact Hnd|].
      unfold ids. rewrite flat_map_app. apply NoDup_app; [exact Hnd| |].
      - cbn. repeat constructor. intros [].
      - intros j Hj Hj2. cbn in Hj2. destruct Hj2 as [<- | []].
        now apply (not_held_not_in_ids _ _ Hn). }
    destruct (IH (act a s) Hnd') as (IHa & (added & IHr) & IHn).
    split; [congruence|]. split; [|exact IHn].
    destruct Hr as [Hr | (rid & b & report & i & _ & _ & _ & Hr)];
      rewrite IHr, Hr; [now exists added|].
    rewrite <- app_assoc. eexists. reflexivity.
Qed.

End Store.

Arguments mkReport {ObjectId}.
Arguments mkArea {ObjectId}.
Arguments mkDb {ObjectId}.
Arguments mkEnv {ObjectId}.
Arguments mkServer {ObjectId}.
Arguments Tick {ObjectId}.
Arguments Begin {ObjectId}.
Arguments Routed {ObjectId}.
Arguments Inserted {ObjectId}.
Arguments Rejected {ObjectId}.
Arguments List {ObjectId}.
Arguments routing {ObjectId}.
Arguments reports {ObjectId}.
Arguments areas {ObjectId}.
Arguments responses {ObjectId}.
Arguments db {ObjectId}.

(** *** A concrete platform, for the examples

    Identifiers are numbers rendered in hexadecimal, times are rendered
    as their millisecond count, and the containment predicate is that of
    an axis-parallel rectangle: the point lies between the least and the
    greatest longitude and latitude of the outer ring, bounds included. *)
Module Sample.

Definition hexString (i : N) : string :=
  HexadecimalString.NilEmpty.string_of_uint (N.to_hex_uint i).

Definition msString (d : Date) : string :=
  DecimalString.NilEmpty.string_of_int (Z.to_int d).

Definition spans (ring : list (list Q)) (axis : nat) (x : Q) : bool :=
  existsb (fun p => match nth_error p axis with
                    | Some v => Qle_bool v x
                    | None => false
                    end) ring &&
  existsb (fun p => match nth_error p axis with
                    | Some v => Qle_bool x v
                    | None => false
                    end) ring.

Definition boxContains (poly : GeoPolygon) (pt : GeoPoint) : bool :=
  match polygon_coordinates poly, point_coordinates pt with
  | ring :: _, [x; y] => spans ring 0 x && spans ring 1 y
  | _, _ => false
  end.

Definition POST := Route.POST N N.eqb hexString msString boxContains.
Definition GET := Route.GET N hexString msString.
Definition serve := Route.serve N N.eqb hexString msString boxContains.

Definition rectangle (west south east north : Q) : GeoPolygon :=
  {| polygon_type := "Polygon";
     polygon_coordinates :=
       [[ [west; south]; [east; south]; [east; north]; [west; north];
          [west; south] ]] |}.

(** An active area covering San Francisco, and an inactive one covering
    the same ground. *)
Definition sanFrancisco : Area N :=
  mkArea 161%N (rectangle (-122.52) 37.70 (-122.35) 37.83) true.

Definition retiredDistrict : Area N :=
  mkArea 162%N (rectangle (-123) 37 (-122) 38) false.

Definition judgment : AnalyzeResponse :=
  {| category := "blocked_sidewalk"; severity := "high";
     summary := "Construction fence across the sidewalk";
     confidence := 0.92 |}.

Definition bodyAt (c : Coordinates) (fileName : string) : Body :=
  {| coordinates := c;
     mediaUrl := "blob:a1";
     mediaType := "image";
     fileName := fileName;
     fileSize := 300000;
     analysis := judgment;
     geoMethod := "auto" |}.

Definition marketStreet : Coordinates := {| lat := 37.7749; lng := -122.4194 |}.

Definition nullIsland : Coordinates := {| lat := 0; lng := 0 |}.

Definition emptyStore : Database N :=
  mkDb [retiredDistrict; sanFrancisco] [].

(** The store after a first report was created at time 1000. *)
Definition oneReportStore : Database N :=
  fst (POST (mkEnv true true true 1000%Z 177%N) (Some (bodyAt nullIsland "first.jpg"))
            emptyStore).

Definition idle : Server N := mkServer 1000%Z emptyStore [] [].

(** The sample identifiers meet what the route relies on. *)
Lemma hexString_inj (i j : N) : hexString i = hexString j -> i = j.
Proof.
  unfold hexString. intros H.
  apply (f_equal HexadecimalString.NilEmpty.uint_of_string) in H.
  rewrite !HexadecimalString.NilEmpty.usu in H. injection H as H.
  now apply HexadecimalN.Unsigned.to_uint_inj.
Qed.

Definition arrival : Env N := mkEnv true true true 2000%Z 178%N.

Lemma POST_routes_by_containing_active_area_witness :
  exists doc,
    POST arrival (Some (bodyAt marketStreet "curb.jpg")) oneReportStore =
      (mkDb (areas oneReportStore) (reports oneReportStore ++ [doc]),
       {| status_code := 201;
          body := createdReport N hexString msString 178%N doc marketStreet |}) /\
    routing doc = Some {| assignedAreaId := "a1";
                          matchedBy := "geoWithin";
                          matchedAt := 2000%Z |}.
Proof.
  destruct (POST_routes_by_containing_active_area
              N N.eqb hexString msString boxContains
              arrival (bodyAt marketStreet "curb.jpg") oneReportStore
              eq_refl eq_refl)
    as (doc & HP & Hloc & Hin & _).
  exists doc. split; [exact HP|].
  destruct Hin as (a & Ha & Hact & _ & Hr).
  - exists sanFrancisco. unfold containsPoint. rewrite Hloc.
    repeat split. cbn. auto.
  - rewrite Hr.
    destruct Ha as [<- | [<- | []]]; [discriminate Hact | reflexivity].
Defined.

(** A point outside every area, and a point that only the inactive area
    contains: both reports are persisted without a routing assignment. *)
Definition halfMoonBay : Coordinates := {| lat := 37.4636; lng := -122.4286 |}.

Example unmatched_reports_are_persisted_unrouted :
  let created c := POST arrival (Some (bodyAt c "curb.jpg")) oneReportStore in
  status_code (snd (created nullIsland)) = 201%Z /\
  option_map routing (nth_error (reports (fst (created nullIsland))) 1)
    = Some None /\
  boxContains (polygon N retiredDistrict)
              (location N (newReport N 2000%Z (bodyAt halfMoonBay "curb.jpg")))
    = true /\
  status_code (snd (created halfMoonBay)) = 201%Z /\
  option_map routing (nth_error (reports (fst (created halfMoonBay))) 1)
    = Some None.
Proof. cbv zeta. repeat split. Qed.

(** C4 fails as stated: the report is persisted with a routing
    assignment, and the 201 body has no routing property. *)
Lemma routed_report_is_returned_without_routing :
  let result := POST arrival (Some (bodyAt marketStreet "curb.jpg"))
                     oneReportStore in
  status_code (snd result) = 201%Z /\
  option_map routing (nth_error (reports (fst result)) 1) =
    Some (Some {| assignedAreaId := "a1";
                  matchedBy := "geoWithin";
                  matchedAt := 2000%Z |}) /\
  get "id" (body (snd result)) = Some (JStr "b2") /\
  get "routing" (body (snd result)) = None.
Proof. cbv zeta. repeat split. Qed.

Lemma POST_response_is_frontend_report_witness :
  exists b,
    Some (bodyAt marketStreet "curb.jpg") = Some b /\
    body (snd (POST arrival (Some (bodyAt marketStreet "curb.jpg"))
                    oneReportStore)) =
      JObj [
        ("id", JStr "b2");
        ("createdAt", JStr "2000");
        ("coordinates", JObj [ ("lat", JNum (lat (coordinates b)));
                               ("lng", JNum (lng (coordinates b))) ]);
        ("mediaUrl", JStr (mediaUrl b));
        ("mediaType", JStr (mediaType b));
        ("fileName", JStr (fileName b));
        ("fileSize", JNum (inject_Z (fileSize b)));
        ("analysis", JObj [
           ("category", JStr (category (analysis b)));
           ("severity", JStr (severity (analysis b)));
           ("summary", JStr (summary (analysis b)));
           ("confidence", JNum (confidence (analysis b))) ]);
        ("geoMethod", JStr (geoMethod b));
        ("status", JStr "open") ] /\
    get "routing"
        (body (snd (POST arrival (Some (bodyAt marketStreet "curb.jpg"))
                         oneReportStore))) = None.
Proof.
  exact (POST_response_is_frontend_report
           N N.eqb hexString msString boxContains
           arrival (Some (bodyAt marketStreet "curb.jpg")) oneReportStore
           _ _ eq_refl eq_refl).
Defined.

Lemma GET_lists_newest_first_witness :
  exists doc rest,
    reports (fst (POST arrival (Some (bodyAt marketStreet "curb.jpg"))
                       oneReportStore)) = reports oneReportStore ++ [doc] /\
    GET true (fst (POST arrival (Some (bodyAt marketStreet "curb.jpg"))
                        oneReportStore)) =
      {| status_code := 200;
         body := JArr (map (transformReport N hexString msString)
                           (doc :: rest)) |} /\
    get "id" (transformReport N hexString msString doc) = Some (JStr "b2").
Proof.
  destruct (GET_lists_newest_first
              N N.eqb hexString msString boxContains
              (fst (POST arrival (Some (bodyAt marketStreet "curb.jpg"))
                         oneReportStore)))
    as (listed & HG & _ & _ & Hnew).
  destruct (Hnew arrival (Some (bodyAt marketStreet "curb.jpg"))
                 oneReportStore _ eq_refl eq_refl)
    as (doc & rest & Hr & -> & Hid).
  - repeat constructor.
  - exists doc, rest. split; [exact Hr|]. split; [exact HG|].
    rewrite Hid. reflexivity.
Defined.

(** C3 fails as stated. Two creations overlap: the first handler reads
    the clock at 1000 and waits for its area lookup, the second one reads
    the clock at 1005 and completes, then the first one completes. The
    report of the first handler is the one created immediately before
    the list, and it is listed second. *)
Lemma overlapping_creates_list_the_latest_insert_second :
  let s := serve [Begin 1 (bodyAt marketStreet "curb.jpg");
                  Tick 5;
                  Begin 2 (bodyAt nullIsland "stairs.jpg");
                  Routed 2; Inserted 2 178%N;
                  Routed 1; Inserted 1 177%N;
                  List 3] idle in
  exists second_created first_created listed first second,
    responses s = [(2%nat, first_created); (1%nat, second_created);
                   (3%nat, listed)] /\
    status_code second_created = 201%Z /\
    get "id" (body second_created) = Some (JStr "b1") /\
    option_map (_id N) (nth_error (reports (db s)) 1) = Some (Some 177%N) /\
    body listed = JArr [first; second] /\
    get "id" first = Some (JStr "b2") /\
    get "createdAt" first = Some (JStr "1005") /\
    get "id" second = Some (JStr "b1") /\
    get "createdAt" second = Some (JStr "1000").
Proof.
  cbv zeta. do 5 eexists. repeat split.
Qed.

(** Two creations, one after the other, within the same millisecond: with
    the order this model gives to equal keys, the later one is listed
    second as well. *)
Lemma same_millisecond_creates_keep_insertion_order :
  let db1 := fst (POST (mkEnv true true true 2000%Z 177%N)
                       (Some (bodyAt marketStreet "curb.jpg")) emptyStore) in
  let db2 := fst (POST (mkEnv true true true 2000%Z 178%N)
                       (Some (bodyAt nullIsland "stairs.jpg")) db1) in
  exists first second,
    body (GET true db2) = JArr [first; second] /\
    get "id" first = Some (JStr "b1") /\
    get "id" second = Some (JStr "b2").
Proof. cbv zeta. do 2 eexists. repeat split. Qed.

Lemma POST_creates_open_report_with_unused_id_witness :
  status_code (snd (POST arrival (Some (bodyAt marketStreet "curb.jpg"))
                         oneReportStore)) = 201%Z /\
  exists doc,
    reports (fst (POST arrival (Some (bodyAt marketStreet "curb.jpg"))
                       oneReportStore)) = reports oneReportStore ++ [doc] /\
    status N doc = "open" /\
    _id N doc = Some 178%N /\
    hexString 178 = "b2" /\
    ~ In 178%N (ids N (reports oneReportStore)).
Proof.
  destruct (POST_creates_open_report_with_unused_id
              N N.eqb hexString msString boxContains
              N.eqb_eq hexString_inj
              arrival (Some (bodyAt marketStreet "curb.jpg")) oneReportStore
              _ _ eq_refl)
    as (Hs & doc & Hr & Hst & Hid & _ & _ & Hfresh & _).
  - cbn. intros H. apply (f_equal (@List.length _)) in H. discriminate H.
  - split; [exact Hs|]. exists doc. repeat split; assumption.
Defined.

(** A request whose generated identifier is already held. *)
Definition collidingArrival : Env N := mkEnv true true true 2000%Z 177%N.

Lemma POST_answers_201_or_500_witness :
  (status_code (snd (POST collidingArrival
                          (Some (bodyAt marketStreet "curb.jpg"))
                          oneReportStore)) = 500%Z) /\
  snd (POST collidingArrival (Some (bodyAt marketStreet "curb.jpg"))
            oneReportStore) = creationFailed /\
  fst (POST collidingArrival (Some (bodyAt marketStreet "curb.jpg"))
            oneReportStore) = oneReportStore.
Proof.
  split; [reflexivity|].
  apply (POST_answers_201_or_500 N N.eqb hexString msString boxContains
           collidingArrival (Some (bodyAt marketStreet "curb.jpg"))
           oneReportStore _ _ eq_refl).
  discriminate.
Defined.

Lemma created_report_is_listed_verbatim_witness :
  exists doc listed,
    reports (fst (POST arrival (Some (bodyAt marketStreet "curb.jpg"))
                       oneReportStore)) = reports oneReportStore ++ [doc] /\
    transformReport N hexString msString doc =
      body (snd (POST arrival (Some (bodyAt marketStreet "curb.jpg"))
                      oneReportStore)) /\
    GET true (fst (POST arrival (Some (bodyAt marketStreet "curb.jpg"))
                        oneReportStore)) =
      {| status_code := 200; body := JArr listed |} /\
    In (body (snd (POST arrival (Some (bodyAt marketStreet "curb.jpg"))
                        oneReportStore))) listed.
Proof.
  exact (created_report_is_listed_verbatim
           N N.eqb hexString msString boxContains
           arrival (Some (bodyAt marketStreet "curb.jpg")) oneReportStore
           _ _ eq_refl eq_refl).
Defined.

Lemma serve_appends_with_distinct_ids_witness :
  let s := serve [Begin 1 (bodyAt marketStreet "curb.jpg");
                  Begin 2 (bodyAt nullIsland "stairs.jpg");
                  Routed 2; Routed 1;
                  Inserted 2 177%N; Inserted 1 177%N] idle in
  areas (db s) = areas (db idle) /\
  (exists added, reports (db s) = reports (db idle) ++ added) /\
  NoDup (ids N (reports (db s))) /\
  map fst (responses s) = [2%nat; 1%nat] /\
  map (fun r => status_code (snd r)) (responses s) = [201%Z; 500%Z].
Proof.
  cbv zeta.
  destruct (serve_appends_with_distinct_ids
              N N.eqb hexString msString boxContains N.eqb_eq
              [Begin 1 (bodyAt marketStreet "curb.jpg");
               Begin 2 (bodyAt nullIsland "stairs.jpg");
               Routed 2; Routed 1;
               Inserted 2 177%N; Inserted 1 177%N] idle)
    as (Ha & Hr & Hn).
  - constructor.
  - repeat split; assumption || reflexivity.
Defined.

End Sample.

End Route.

(* ================================================================== *)
(** ** Properties of the media normalization *)
(* ================================================================== *)

Module MediaFacts.
Import Js Media.

(** A name carries the proprietary extension when it ends, in any
    letter case, in [.heic] or [.heif]: the first two tests of
    [isHeicFile]. *)
Definition hasHeicExt (n : string) : bool :=
  endsWith (toLowerCase n) ".heic" || endsWith (toLowerCase n) ".heif".

Fixpoint lastChar (s : string) : option ascii :=
  match s with
  | EmptyString => None
  | String c EmptyString => Some c
  | String _ r => lastChar r
  end.

Lemma lastChar_app (a b : string) :
  b <> EmptyString -> lastChar (a ++ b) = lastChar b.
Proof.
  intros Hb. induction a as [|c a IH]; simpl; [reflexivity|].
  rewrite IH. destruct (a ++ b) eqn:E; [|reflexivity].
  destruct a; simpl in E; [congruence | discriminate].
Qed.

Lemma toLowerCase_app (a b : string) :
  toLowerCase (a ++ b) = toLowerCase a ++ toLowerCase b.
Proof.
  induction a as [|c a IH]; simpl; [reflexivity | now rewrite IH].
Qed.

(** A split of the lowered string comes from a split of the string. *)
Lemma toLowerCase_split (s q t : string) :
  toLowerCase s = q ++ t ->
  exists p e, s = p ++ e /\ toLowerCase p = q /\ toLowerCase e = t.
Proof.
  revert s. induction q as [|c q IH]; intros s H.
  - exists EmptyString, s. auto.
  - destruct s as [|d s]; simpl in H; [discriminate|].
    injection H as Hc Hs. destruct (IH _ Hs) as (p & e & -> & Hp & He).
    exists (String d p), e. simpl. rewrite Hp, Hc. auto.
Qed.

Lemma endsWith_iff (s suf : string) :
  endsWith s suf = true <-> exists p, s = p ++ suf.
Proof.
  split.
  - induction s as [|c s IH]; cbn [endsWith]; intros H.
    + rewrite orb_false_r in H. apply String.eqb_eq in H.
      exists EmptyString. now subst.
    + apply orb_true_iff in H as [H | H].
      * apply String.eqb_eq in H. exists EmptyString. now subst.
      * destruct (IH H) as [p ->]. now exists (String c p).
  - intros [p ->]. induction p as [|c p IH]; cbn [append endsWith].
    + destruct suf; cbn [endsWith]; rewrite String.eqb_refl; reflexivity.
    + rewrite IH. apply orb_true_r.
Qed.

Lemma matches_heic_ext_iff (e : string) :
  matches_heic_ext e = true <->
  toLowerCase e = ".heic" \/ toLowerCase e = ".heif".
Proof.
  unfold matches_heic_ext. rewrite orb_true_iff, !String.eqb_eq. tauto.
Qed.

Lemma hasHeicExt_iff (s : string) :
  hasHeicExt s = true <->
  exists p e, s = p ++ e /\ matches_heic_ext e = true.
Proof.
  unfold hasHeicExt. rewrite orb_true_iff, !endsWith_iff. split.
  - intros [[q H] | [q H]]; apply toLowerCase_split in H;
      destruct H as (p & e & -> & _ & He); exists p, e;
      (split; [reflexivity|]); apply matches_heic_ext_iff; auto.
  - intros (p & e & -> & He). apply matches_heic_ext_iff in He.
    rewrite toLowerCase_app.
    destruct He as [-> | ->]; [left | right]; now exists (toLowerCase p).
Qed.

(** What the replacement does: either the name splits into a stem and a
    matching extension, which becomes [.jpg], or no tail of the name
    matches and the name is returned as it is. *)
Lemma replace_heic_ext_spec (s : string) :
  (exists p e, s = p ++ e /\ matches_heic_ext e = true /\
               replace_heic_ext s = p ++ ".jpg") \/
  (hasHeicExt s = false /\ replace_heic_ext s = s).
Proof.
  induction s as [|c s IH].
  - right. split; reflexivity.
  - cbn [replace_heic_ext].
    destruct (matches_heic_ext (String c s)) eqn:Hm.
    + left. exists EmptyString, (String c s). auto.
    + destruct IH as [(p & e & -> & He & Hr) | [Hn Hr]].
      * left. exists (String c p), e. simpl. rewrite Hr. auto.
      * right. rewrite Hr. split; [|reflexivity].
        destruct (hasHeicExt (String c s)) eqn:Hh; [|reflexivity].
        apply hasHeicExt_iff in Hh as (p & e & Hs & He).
        destruct p as [|d p]; simpl in Hs.
        -- subst e. congruence.
        -- injection Hs as _ Hs.
           assert (hasHeicExt s = true) by (apply hasHeicExt_iff; eauto).
           congruence.
Qed.

Lemma jpg_has_no_heic_ext (p : string) : hasHeicExt (p ++ ".jpg") = false.
Proof.
  destruct (hasHeicExt (p ++ ".jpg")) eqn:H; [|reflexivity].
  unfold hasHeicExt in H. rewrite toLowerCase_app in H.
  apply orb_true_iff in H as [H | H]; apply endsWith_iff in H as [q H];
    apply (f_equal lastChar) in H;
    rewrite !lastChar_app in H by discriminate; discriminate.
Qed.

Lemma replaced_name_has_no_heic_ext (s : string) :
  hasHeicExt (replace_heic_ext s) = false.
Proof.
  destruct (replace_heic_ext_spec s) as [(p & e & _ & _ & ->) | [Hn ->]].
  - apply jpg_has_no_heic_ext.
  - exact Hn.
Qed.

Lemma replaced_ext_is_jpg (s : string) :
  hasHeicExt s = true -> endsWith (replace_heic_ext s) ".jpg" = true.
Proof.
  intros H.
  destruct (replace_heic_ext_spec s) as [(p & e & _ & _ & ->) | [Hn _]].
  - apply endsWith_iff. now exists p.
  - congruence.
Qed.

Lemma name_without_ext_is_kept (s : string) :
  hasHeicExt s = false -> replace_heic_ext s = s.
Proof.
  intros H.
  destruct (replace_heic_ext_spec s) as [(p & e & Hs & He & _) | [_ Hr]].
  - assert (hasHeicExt s = true) by (apply hasHeicExt_iff; eauto).
    congruence.
  - exact Hr.
Qed.

(** Either signal classifies a file as proprietary. *)
Lemma isHeicFile_signals (f : File) :
  isHeicFile f = hasHeicExt (name f) ||
                 ((toLowerCase (type f) =? "image/heic") ||
                  (toLowerCase (type f) =? "image/heif")).
Proof.
  unfold isHeicFile, hasHeicExt. now rewrite !orb_assoc.
Qed.

(** The blob the converted file is assembled from. *)
Definition chosenBlob (converted : Heic2anyResult) : option Blob :=
  match converted with
  | ConvRejected => None
  | ConvBlob b => Some b
  | ConvBlobs bs => hd_error bs
  end.

(** What every successful conversion yields: a file of content type
    image/jpeg (media kind image), built from the converter's single
    result or from the first element of its collection, whose name does
    not end in the proprietary extension; when the original name carried
    that extension, the new name ends in .jpg. *)
Lemma convertHeicToJpeg_normalizes
    (f : File) (converted : Heic2anyResult) (blob : Blob) (out : File) :
  convertHeicToJpeg f converted = Some (Some blob, out) ->
  type out = "image/jpeg" /\
  mediaKind out = "image" /\
  hasHeicExt (name out) = false /\
  (hasHeicExt (name f) = true -> endsWith (name out) ".jpg" = true) /\
  chosenBlob converted = Some blob /\
  bits out = [PartBlob blob].
Proof.
  intros H.
  assert (Hc : chosenBlob converted = Some blob /\
               out = new_File [PartBlob blob] (replace_heic_ext (name f))
                              "image/jpeg").
  { destruct converted as [|b|bs]; simpl in H; [discriminate| |].
    - injection H as -> <-. auto.
    - destruct (hd_error bs) eqn:E; simpl in *; [|discriminate].
      injection H as -> <-. auto. }
  destruct Hc as [Hb ->]. cbn [type name bits new_File].
  repeat split; try assumption.
  - apply replaced_name_has_no_heic_ext.
  - apply replaced_ext_is_jpg.
Qed.

Definition sampleBlob : Blob :=
  {| blob_data := 7; blob_size := 2048; blob_type := "image/jpeg" |}.

Definition sampleHeic : File :=
  {| name := "IMG_0042.HEIC"; type := "image/heic"; size := 4096; bits := [] |}.

(** A file that only its content type classifies as proprietary. *)
Definition typeOnlyHeic : File :=
  {| name := "IMG_0042"; type := "image/heic"; size := 4096; bits := [] |}.

Definition otherBlob : Blob :=
  {| blob_data := 8; blob_size := 1024; blob_type := "image/jpeg" |}.

Definition convertedSample : File :=
  new_File [PartBlob sampleBlob] "IMG_0042.jpg" "image/jpeg".

Lemma convertHeicToJpeg_normalizes_witness :
  type convertedSample = "image/jpeg" /\
  mediaKind convertedSample = "image" /\
  hasHeicExt (name convertedSample) = false /\
  endsWith (name convertedSample) ".jpg" = true /\
  chosenBlob (ConvBlobs [sampleBlob; otherBlob]) = Some sampleBlob /\
  bits convertedSample = [PartBlob sampleBlob].
Proof.
  destruct (convertHeicToJpeg_normalizes
              sampleHeic (ConvBlobs [sampleBlob; otherBlob]) sampleBlob
              convertedSample eq_refl)
    as (H1 & H2 & H3 & H4 & H5 & H6).
  exact (conj H1 (conj H2 (conj H3 (conj (H4 eq_refl) (conj H5 H6))))).
Defined.

(** C7 fails on the code. A file that only its content type classifies
    as proprietary (name IMG_0042, type image/heic) is converted: the new
    file has content type image/jpeg, but its name is the old one, which
    does not end in .jpg. The pattern of the rename looks for the
    extension that the classifier did not require. *)
Theorem convertHeicToJpeg_keeps_name_without_ext :
  isHeicFile typeOnlyHeic = true /\
  exists out,
    convertHeicToJpeg typeOnlyHeic (ConvBlob sampleBlob)
      = Some (Some sampleBlob, out) /\
    type out = "image/jpeg" /\
    name out = "IMG_0042" /\
    endsWith (name out) ".jpg" = false.
Proof.
  split; [reflexivity|].
  eexists. split; [reflexivity|]. repeat split.
Qed.

(** The same for every file: whenever the name does not carry the
    extension, a conversion leaves the name as it is. *)
Lemma unmatched_name_is_not_renamed
    (f : File) (converted : Heic2anyResult) (blob : option Blob) (out : File) :
  hasHeicExt (name f) = false ->
  convertHeicToJpeg f converted = Some (blob, out) ->
  name out = name f.
Proof.
  intros Hx H.
  assert (Hn : name out = replace_heic_ext (name f)).
  { destruct converted as [|b|bs]; cbn in H; [discriminate| |];
      injection H as _ <-; reflexivity. }
  rewrite Hn. now apply name_without_ext_is_kept.
Qed.

End MediaFacts.

(* ================================================================== *)
(** ** Properties of the upload modal *)
(* ================================================================== *)

Module ModalFacts.
Import Media Modal.

(** The setters are evaluated by value, so that each intermediate world is
    a record of values before the next setter reads it. *)
Ltac unfold_setters :=
  cbv [setStep setFile setMediaUrl setCoordinates setGeoMethod setGeoError
       setAnalysis setIsAnalyzing setError createObjectURL revokeIfHeld
       proceed when modify emit await bind ret exec fst snd
       ui effects pending step file mediaUrl coordinates geoMethod geoError
       analysis isAnalyzing error].

Ltac unfold_handlers :=
  unfold dispatch, exec, handleClose, handleSubmit, resetState,
         handleBackFromLocation, handleBackFromReview, handleCenterChange,
         handleAnalyze, handleFileSelect.

Ltac run_handler := unfold_handlers; unfold_setters; cbn.

Ltac open_world w :=
  let s := fresh "s" in
  let eff := fresh "eff" in
  let pend := fresh "pend" in
  destruct w as [s eff pend]; destruct s.

(** The rest of a handler, run in a world. *)
Ltac run_rest :=
  unfold afterConversion, afterPosition, afterFetch; unfold_setters; cbn.

(** *** Input validation (C8) *)

(** The [isImage] and [isVideo] tests of handleFileSelect. *)
Definition isImage (f : File) : bool :=
  Js.startsWith (type f) "image/" || isHeicFile f.

Definition isVideo (f : File) : bool := Js.startsWith (type f) "video/".

Definition validationError (f : File) : string :=
  if negb (isImage f) && negb (isVideo f)
  then "Please select an image or video file"
  else "File must be under 20MB".

(** C8. A selected file that is neither image nor video, or whose size
    exceeds 20 MiB, is rejected with an error message, and nothing else
    changes: step, file, media URL, coordinates, analysis and every other
    cell are as before, no object URL is created, no call leaves the
    component and the handler ends without waiting for anything. *)
Theorem handleFileSelect_rejects_invalid
    (f : File) (minted : string) (w : World) :
  (isImage f = false /\ isVideo f = false) \/ (size f > 20 * 1024 * 1024)%Z ->
  let w' := dispatch (FileSelect (Some f) minted) w in
  error (ui w') = Some (validationError f) /\
  step (ui w') = step (ui w) /\
  file (ui w') = file (ui w) /\
  mediaUrl (ui w') = mediaUrl (ui w) /\
  coordinates (ui w') = coordinates (ui w) /\
  analysis (ui w') = analysis (ui w) /\
  geoMethod (ui w') = geoMethod (ui w) /\
  geoError (ui w') = geoError (ui w) /\
  isAnalyzing (ui w') = isAnalyzing (ui w) /\
  effects w' = effects w /\
  pending w' = pending w.
Proof.
  intros H. unfold dispatch, exec, handleFileSelect.
  change (Js.startsWith (type f) "image/" || isHeicFile f) with (isImage f).
  change (Js.startsWith (type f) "video/") with (isVideo f).
  cbv zeta. unfold validationError.
  destruct (negb (isImage f) && negb (isVideo f)) eqn:Hk.
  - open_world w. unfold_setters. cbn. repeat split.
  - destruct (size f >? MAX_SIZE)%Z eqn:Hs.
    + open_world w. unfold_setters. cbn. repeat split.
    + exfalso. destruct H as [[Hi Hv] | Hbig].
      * rewrite Hi, Hv in Hk. discriminate.
      * rewrite Z.gtb_ltb in Hs. apply Z.ltb_ge in Hs.
        unfold MAX_SIZE in Hs. lia.
Qed.

(** A video of 25 MiB. *)
Definition oversizedVideo : File :=
  {| name := "ramp.mp4"; type := "video/mp4";
     size := 25 * 1024 * 1024; bits := [] |}.

Lemma handleFileSelect_rejects_invalid_witness :
  let w' := dispatch (FileSelect (Some oversizedVideo) "a1") initialWorld in
  error (ui w') = Some "File must be under 20MB" /\
  step (ui w') = Select /\
  file (ui w') = None /\
  mediaUrl (ui w') = None /\
  coordinates (ui w') = None /\
  analysis (ui w') = None /\
  geoMethod (ui w') = Auto /\
  geoError (ui w') = None /\
  isAnalyzing (ui w') = false /\
  effects w' = [] /\
  pending w' = [].
Proof.
  apply (handleFileSelect_rejects_invalid oversizedVideo "a1" initialWorld).
  right. unfold oversizedVideo. simpl. lia.
Defined.

(** *** Sample data *)

Definition samplePhoto : File :=
  {| name := "curb.jpg"; type := "image/jpeg"; size := 300000; bits := [] |}.

Definition secondPhoto : File :=
  {| name := "stairs.png"; type := "image/png"; size := 512000; bits := [] |}.

Definition cityHall : Coordinates := {| lat := 43.6534; lng := -79.3841 |}.

Definition unionStation : Coordinates := {| lat := 43.6453; lng := -79.3806 |}.

(** The modal after a photo was selected and the automatic fix
    succeeded. *)
Definition locatedWorld : World :=
  run [FileSelect (Some samplePhoto) "a1";
       Settles 0 (Positioned (Some cityHall))] initialWorld.

Lemma locatedWorld_reachable : reachable locatedWorld.
Proof.
  unfold locatedWorld. cbn [run fold_left].
  apply reach_step; [|reflexivity].
  apply reach_step; [|reflexivity].
  apply reach_init.
Defined.

(** *** Analysis failure (C6) *)

(** The request fails when [fetch] rejects, when the response is not
    [ok], or when its body does not parse. *)
Definition analysisFailed (outcome : FetchOutcome) : bool :=
  match outcome with
  | Response true (Some _) => false
  | _ => true
  end.

(** What handling a failed request does in any world: the rest of
    handleAnalyze sets the step, the error message and the analyzing
    flag, and nothing else. *)
Lemma afterFetch_failure_frame
    (outcome : FetchOutcome) (w : World) (n : nat) (g : GeoMethod) :
  analysisFailed outcome = true ->
  nth_error (pending w) n = Some (AwaitFetch g) ->
  dispatch (Settles n (Fetched outcome)) w =
  {| ui := mkState Location (file (ui w)) (mediaUrl (ui w))
                   (coordinates (ui w)) (geoMethod (ui w)) (geoError (ui w))
                   (analysis (ui w)) false
                   (Some "Failed to analyze media. Please try again.");
     effects := effects w;
     pending := remove_nth n (pending w) |}.
Proof.
  intros Hfail Hn. unfold dispatch, settle. rewrite Hn. cbn [resume].
  open_world w.
  destruct outcome as [|[|] [r|]]; try discriminate; run_rest; reflexivity.
Qed.

Lemma nth_error_snoc {A} (l : list A) (x : A) :
  nth_error (l ++ [x]) (List.length l) = Some x.
Proof. induction l as [|y l IH]; [reflexivity | exact IH]. Qed.

Lemma remove_nth_snoc {A} (l : list A) (x : A) :
  remove_nth (List.length l) (l ++ [x]) = l.
Proof.
  induction l as [|y l IH]; [reflexivity|]. cbn. now rewrite IH.
Qed.

(** What the invocation does before it waits for the request. *)
Lemma handleAnalyze_invoked (w : World) (f : File) (c : Coordinates) :
  file (ui w) = Some f ->
  coordinates (ui w) = Some c ->
  dispatch Analyze w =
  {| ui := mkState Analyzing (Some f) (mediaUrl (ui w)) (Some c)
                   (geoMethod (ui w)) (geoError (ui w)) (analysis (ui w))
                   true None;
     effects := (effects w ++ [FetchAnalyze f])%list;
     pending := (pending w ++ [AwaitFetch (geoMethod (ui w))])%list |}.
Proof.
  intros Hf Hc. open_world w. cbn in Hf, Hc. subst. run_handler. reflexivity.
Qed.

(** C6, as the code has it. An analysis is invoked with a file and
    coordinates present: the request is sent and the handler waits.
    When the request fails and no other event has occurred in the
    meantime, the modal is back on the location step with an error
    message, and the file, the media URL, the coordinates, the stored
    analysis and the geo method are those from before the invocation;
    sending the request is the only call made, so no handle is revoked.
    Whenever the failure arrives, handling it sets the step, the error
    message and the analyzing flag and changes nothing else of the world
    it arrives in. *)
Theorem handleAnalyze_failure_keeps_draft
    (outcome : FetchOutcome) (w : World) (f : File) (c : Coordinates) :
  file (ui w) = Some f ->
  coordinates (ui w) = Some c ->
  analysisFailed outcome = true ->
  let w1 := dispatch Analyze w in
  let w' := dispatch (Settles (List.length (pending w)) (Fetched outcome)) w1 in
  (step (ui w1) = Analyzing /\
   effects w1 = (effects w ++ [FetchAnalyze f])%list /\
   pending w1 = (pending w ++ [AwaitFetch (geoMethod (ui w))])%list) /\
  (step (ui w') = Location /\
   error (ui w') = Some "Failed to analyze media. Please try again." /\
   file (ui w') = Some f /\
   mediaUrl (ui w') = mediaUrl (ui w) /\
   coordinates (ui w') = Some c /\
   analysis (ui w') = analysis (ui w) /\
   geoMethod (ui w') = geoMethod (ui w) /\
   geoError (ui w') = geoError (ui w) /\
   isAnalyzing (ui w') = false /\
   effects w' = (effects w ++ [FetchAnalyze f])%list /\
   pending w' = pending w) /\
  (forall (v : World) (n : nat) (g : GeoMethod),
     nth_error (pending v) n = Some (AwaitFetch g) ->
     let v' := dispatch (Settles n (Fetched outcome)) v in
     step (ui v') = Location /\
     error (ui v') = Some "Failed to analyze media. Please try again." /\
     file (ui v') = file (ui v) /\
     mediaUrl (ui v') = mediaUrl (ui v) /\
     coordinates (ui v') = coordinates (ui v) /\
     analysis (ui v') = analysis (ui v) /\
     geoMethod (ui v') = geoMethod (ui v) /\
     geoError (ui v') = geoError (ui v) /\
     isAnalyzing (ui v') = false /\
     effects v' = effects v /\
     pending v' = remove_nth n (pending v)).
Proof.
  intros Hf Hc Hfail. cbv zeta.
  rewrite (handleAnalyze_invoked w f c Hf Hc).
  split; [cbn; auto|]. split.
  - rewrite (afterFetch_failure_frame outcome _ (List.length (pending w))
               (geoMethod (ui w)) Hfail)
      by (cbn [pending]; apply nth_error_snoc).
    cbn [ui effects pending step file mediaUrl coordinates geoMethod geoError
         analysis isAnalyzing error].
    rewrite remove_nth_snoc. repeat split.
  - intros v n g Hn.
    rewrite (afterFetch_failure_frame outcome v n g Hfail Hn).
    cbn. repeat split.
Qed.

Lemma handleAnalyze_failure_keeps_draft_witness :
  let w1 := dispatch Analyze locatedWorld in
  let w' := dispatch (Settles 0 (Fetched (Response false None))) w1 in
  (step (ui w1) = Analyzing /\
   effects w1 = [CreateObjectURL "blob:a1"; AnalyticsMediaSelected "image";
                 FetchAnalyze samplePhoto] /\
   pending w1 = [AwaitFetch Auto]) /\
  (step (ui w') = Location /\
   error (ui w') = Some "Failed to analyze media. Please try again." /\
   file (ui w') = Some samplePhoto /\
   mediaUrl (ui w') = Some "blob:a1" /\
   coordinates (ui w') = Some cityHall /\
   analysis (ui w') = None /\
   geoMethod (ui w') = Auto /\
   geoError (ui w') = None /\
   isAnalyzing (ui w') = false /\
   effects w' = [CreateObjectURL "blob:a1"; AnalyticsMediaSelected "image";
                 FetchAnalyze samplePhoto] /\
   pending w' = []).
Proof.
  pose proof (handleAnalyze_failure_keeps_draft (Response false None)
                locatedWorld samplePhoto cityHall eq_refl eq_refl eq_refl)
    as H.
  cbv zeta in H. destruct H as (H1 & H2 & _).
  exact (conj H1 H2).
Defined.

(** C6 fails as stated. A photo is selected and located, and the
    location is confirmed; while the request is in flight the reporter
    closes the modal, which resets the draft and revokes the media URL;
    then the request fails. The modal is on the location step with the
    error message, and the file, the media URL and the coordinates are
    not those from before the invocation: there are none. *)
Lemma closing_during_analysis_discards_the_draft :
  let w0 := locatedWorld in
  let w1 := dispatch Analyze w0 in
  let w2 := dispatch Close w1 in
  let w3 := dispatch (Settles 0 (Fetched NetworkError)) w2 in
  reachable w3 /\
  file (ui w0) = Some samplePhoto /\
  mediaUrl (ui w0) = Some "blob:a1" /\
  coordinates (ui w0) = Some cityHall /\
  step (ui w1) = Analyzing /\
  offered w1 Close = true /\
  step (ui w3) = Location /\
  error (ui w3) = Some "Failed to analyze media. Please try again." /\
  file (ui w3) = None /\
  mediaUrl (ui w3) = None /\
  coordinates (ui w3) = None /\
  revoked w3 "blob:a1".
Proof.
  cbv zeta. split.
  { do 3 (apply reach_step; [|reflexivity]). apply locatedWorld_reachable. }
  repeat split. unfold revoked. vm_compute. auto 10.
Qed.

(** The coordinates can change under a request in flight without the
    modal being closed: the reporter pans the map before the automatic
    fix has arrived and confirms the location; the fix arrives while the
    request is in flight, and the request fails. The coordinates are
    then those of the fix, not those that were confirmed. *)
Lemma late_fix_replaces_confirmed_coordinates :
  let w0 := run [FileSelect (Some samplePhoto) "a1";
                 CenterChange unionStation] initialWorld in
  let w1 := dispatch Analyze w0 in
  let w2 := dispatch (Settles 0 (Positioned (Some cityHall))) w1 in
  let w3 := dispatch (Settles 0 (Fetched NetworkError)) w2 in
  reachable w3 /\
  file (ui w0) = Some samplePhoto /\
  coordinates (ui w0) = Some unionStation /\
  step (ui w1) = Analyzing /\
  step (ui w3) = Location /\
  error (ui w3) = Some "Failed to analyze media. Please try again." /\
  file (ui w3) = Some samplePhoto /\
  coordinates (ui w3) = Some cityHall /\
  coordinates (ui w3) <> coordinates (ui w0).
Proof.
  cbv zeta. split.
  { cbn [run fold_left].
    repeat (apply reach_step; [|reflexivity]). apply reach_init. }
  repeat split. discriminate.
Qed.

(** *** Back from the location step (C10) *)

(** C10. From any state, Back from the location step lands on the
    select step with the file, the media URL, the coordinates and the
    geolocation warning cleared, and leaves the geo method, the stored
    analysis and the error message (and the analyzing flag) as they were.
    A held media URL is revoked, and that is the only call made. *)
Theorem handleBackFromLocation_frame (w : World) :
  let w' := dispatch BackFromLocation w in
  step (ui w') = Select /\
  file (ui w') = None /\
  mediaUrl (ui w') = None /\
  coordinates (ui w') = None /\
  geoError (ui w') = None /\
  geoMethod (ui w') = geoMethod (ui w) /\
  analysis (ui w') = analysis (ui w) /\
  error (ui w') = error (ui w) /\
  isAnalyzing (ui w') = isAnalyzing (ui w) /\
  (forall u, mediaUrl (ui w) = Some u -> u <> EmptyString ->
             effects w' = (effects w ++ [RevokeObjectURL u])%list) /\
  (mediaUrl (ui w) = None -> effects w' = effects w).
Proof.
  open_world w. run_handler.
  destruct mediaUrl0 as [[|a u]|]; cbn; repeat split;
    try discriminate; intros u0 H; injection H as <-; congruence.
Qed.

Lemma handleBackFromLocation_frame_witness :
  let w' := dispatch BackFromLocation locatedWorld in
  step (ui w') = Select /\
  file (ui w') = None /\
  mediaUrl (ui w') = None /\
  coordinates (ui w') = None /\
  geoError (ui w') = None /\
  geoMethod (ui w') = Auto /\
  effects w' = [CreateObjectURL "blob:a1"; AnalyticsMediaSelected "image";
                RevokeObjectURL "blob:a1"].
Proof.
  pose proof (handleBackFromLocation_frame locatedWorld) as H.
  cbv zeta in H.
  destruct H as (H1 & H2 & H3 & H4 & H5 & H6 & _ & _ & _ & H10 & _).
  refine (conj H1 (conj H2 (conj H3 (conj H4 (conj H5 (conj H6 _)))))).
  apply (H10 "blob:a1"); [reflexivity | discriminate].
Defined.

(** Back from the location step leaves the promises in flight as they
    are: a fix that is still awaited arrives on the select step. *)
Lemma handleBackFromLocation_keeps_pending (w : World) :
  pending (dispatch BackFromLocation w) = pending w.
Proof.
  open_world w. run_handler. destruct mediaUrl0 as [[|a u]|]; reflexivity.
Qed.

(** *** Geo method under repositioning (C2) *)

(** From a state left by an error-free automatic fix, a reposition
    keeps the geo method at auto and leaves the state error-free, so that
    the next reposition meets the same condition again. *)
Lemma handleCenterChange_keeps_auto (coords : Coordinates) (w : World) :
  geoMethod (ui w) = Auto ->
  geoError (ui w) = None ->
  let w' := dispatch (CenterChange coords) w in
  geoMethod (ui w') = Auto /\ geoError (ui w') = None /\
  coordinates (ui w') = Some coords.
Proof.
  intros Hm He. open_world w. cbn in Hm, He. subst. run_handler. auto.
Qed.

Lemma repositions_keep_auto (moves : list Coordinates) (w : World) :
  geoMethod (ui w) = Auto ->
  geoError (ui w) = None ->
  geoMethod (ui (run (map CenterChange moves) w)) = Auto.
Proof.
  revert w. induction moves as [|c moves IH]; intros w Hm He; [exact Hm|].
  cbn [map run fold_left].
  destruct (handleCenterChange_keeps_auto c w Hm He) as (Hm' & He' & _).
  exact (IH _ Hm' He').
Qed.

(** C2 fails on the code. After an error-free automatic fix, the first
    (programmatic) reposition keeps the geo method at auto, and so does
    the reporter's own reposition that follows it: the pin has moved to
    where the reporter put it and the geo method still reads auto. *)
Theorem manual_pan_after_auto_fix_stays_auto :
  let w1 := locatedWorld in
  let w2 := dispatch (CenterChange cityHall) w1 in
  let w3 := dispatch (CenterChange unionStation) w2 in
  geoMethod (ui w1) = Auto /\ geoError (ui w1) = None /\
  coordinates (ui w1) = Some cityHall /\
  geoMethod (ui w2) = Auto /\
  coordinates (ui w3) = Some unionStation /\
  geoMethod (ui w3) = Auto.
Proof. cbv zeta. repeat split. Qed.

(** When the automatic fix fails the geo method is manual at once. *)
Lemma failed_fix_is_manual :
  let w := run [FileSelect (Some samplePhoto) "a1";
                Settles 0 (Positioned None)] initialWorld in
  geoMethod (ui w) = Manual /\ coordinates (ui w) = None /\
  step (ui w) = Location.
Proof. cbv zeta. repeat split. Qed.

(** *** What holds of every world the modal reaches *)

(** A held media URL is a non-empty string that [URL.createObjectURL]
    has returned; file and media URL are set and cleared together; a
    geolocation warning is only shown under the manual geo method; the
    review step has a judgment to show; and only URLs that were created
    are revoked. *)
Record WellKept (w : World) : Prop := {
  held_is_truthy :
    forall u, mediaUrl (ui w) = Some u -> Js.truthy (Some u) = true;
  held_is_created :
    forall u, mediaUrl (ui w) = Some u -> created w u;
  media_together :
    isNull (file (ui w)) = isNull (mediaUrl (ui w));
  warning_is_manual :
    geoError (ui w) <> None -> geoMethod (ui w) = Manual;
  review_has_judgment :
    step (ui w) = Review -> analysis (ui w) <> None;
  revoked_was_created :
    forall u, revoked w u -> created w u
}.

Lemma step_eqb_eq (a b : UploadStep) : step_eqb a b = true <-> a = b.
Proof. destruct a, b; cbn; split; congruence. Qed.

Lemma In_snoc {A} (x y : A) (l : list A) :
  In x (l ++ [y]) <-> In x l \/ x = y.
Proof. rewrite in_app_iff. cbn. intuition congruence. Qed.

Lemma wellKept_initial : WellKept initialWorld.
Proof.
  constructor; cbn; try discriminate; try tauto; try congruence.
Qed.

Ltac wk_solve :=
  unfold created, revoked in *; cbn in *;
  rewrite ?In_snoc in *;
  try discriminate; try tauto; try congruence; auto;
  try solve [intros; subst; auto];
  try solve [intros ? []];
  try solve [
    let u := fresh "u" in
    let H := fresh "H" in
    intros u H; rewrite ?In_snoc in *;
    repeat match goal with
           | H : _ \/ _ |- _ => destruct H
           end;
    try discriminate;
    repeat match goal with
           | H : Some _ = Some _ |- _ => injection H as H; subst
           | H : RevokeObjectURL _ = RevokeObjectURL _ |- _ =>
               injection H as H; subst
           end;
    auto 7 ].

Ltac wk_fields := constructor; wk_solve.

(** Each handler, and each rest of a handler, keeps it. *)
Lemma wellKept_proceed (w : World) (pf : File) (minted : string) (b : bool) :
  WellKept w ->
  WellKept (exec (processedUrl <- createObjectURL minted ;;
                  proceed pf processedUrl b) w).
Proof.
  intros [Htr Hcr Htog Hwarn Hrev Hrc]. open_world w. unfold_setters.
  wk_fields.
Qed.

Lemma wellKept_dispatch (w : World) (ev : Event) :
  WellKept w -> offered w ev = true -> WellKept (dispatch ev w).
Proof.
  intros Hw Hoff.
  destruct ev as [e minted|coords| | | | | |n r].
  - (* FileSelect *)
    destruct e as [f|]; [|exact Hw].
    unfold dispatch, handleFileSelect. cbv zeta.
    destruct (negb _ && negb _).
    { destruct Hw as [Htr Hcr Htog Hwarn Hrev Hrc]. open_world w.
      unfold_setters. wk_fields. }
    destruct (size f >? MAX_SIZE)%Z.
    { destruct Hw as [Htr Hcr Htog Hwarn Hrev Hrc]. open_world w.
      unfold_setters. wk_fields. }
    destruct (isHeicFile f).
    + destruct Hw as [Htr Hcr Htog Hwarn Hrev Hrc]. open_world w.
      unfold_setters. cbn in Hoff. apply step_eqb_eq in Hoff. subst.
      wk_fields.
    + assert (Hw' : WellKept (exec (setError None) w)).
      { destruct Hw as [Htr Hcr Htog Hwarn Hrev Hrc]. open_world w.
        unfold_setters. wk_fields. }
      exact (wellKept_proceed _ f minted _ Hw').
  - (* CenterChange *)
    destruct Hw as [Htr Hcr Htog Hwarn Hrev Hrc]. open_world w.
    cbn in Hoff. apply step_eqb_eq in Hoff. subst. run_handler.
    destruct (isAuto geoMethod0 && isNull geoError0); wk_fields.
  - (* Analyze *)
    destruct Hw as [Htr Hcr Htog Hwarn Hrev Hrc]. open_world w.
    cbn in Hoff. apply andb_true_iff in Hoff as [Hoff _].
    apply andb_true_iff in Hoff as [Hoff _].
    apply step_eqb_eq in Hoff. subst. run_handler.
    destruct file0 as [f|], coordinates0 as [c|]; wk_fields.
  - (* Submit *)
    destruct Hw as [Htr Hcr Htog Hwarn Hrev Hrc]. open_world w.
    cbn in *. run_handler.
    destruct file0 as [f|], mediaUrl0 as [[|a url]|], coordinates0 as [c|],
             analysis0 as [j|]; cbn;
      try (specialize (Htr _ eq_refl); discriminate);
      wk_fields.
  - (* BackFromLocation *)
    destruct Hw as [Htr Hcr Htog Hwarn Hrev Hrc]. open_world w.
    cbn in *. run_handler.
    destruct mediaUrl0 as [[|a url]|]; cbn;
      try (specialize (Htr _ eq_refl); discriminate);
      wk_fields.
  - (* BackFromReview *)
    destruct Hw as [Htr Hcr Htog Hwarn Hrev Hrc]. open_world w.
    cbn in *. apply step_eqb_eq in Hoff. subst. run_handler. wk_fields.
  - (* Close *)
    destruct Hw as [Htr Hcr Htog Hwarn Hrev Hrc]. open_world w.
    cbn in *. run_handler.
    destruct mediaUrl0 as [[|a url]|]; cbn;
      try (specialize (Htr _ eq_refl); discriminate);
      wk_fields.
  - (* Settles *)
    unfold dispatch, settle.
    destruct (nth_error (pending w) n) as [t|]; [|exact Hw].
    destruct t as [sf img| |g], r as [converted minted|pos|outcome];
      cbn [resume]; try exact Hw.
    + unfold afterConversion.
      destruct (convertHeicToJpeg sf converted) as [[[b|] cf]|].
      * apply wellKept_proceed.
        destruct Hw as [Htr Hcr Htog Hwarn Hrev Hrc]. open_world w.
        wk_fields.
      * destruct Hw as [Htr Hcr Htog Hwarn Hrev Hrc]. open_world w.
        unfold_setters. wk_fields.
      * destruct Hw as [Htr Hcr Htog Hwarn Hrev Hrc]. open_world w.
        unfold_setters. wk_fields.
    + destruct Hw as [Htr Hcr Htog Hwarn Hrev Hrc]. open_world w.
      destruct pos; run_rest; wk_fields.
    + destruct Hw as [Htr Hcr Htog Hwarn Hrev Hrc]. open_world w.
      destruct outcome as [|[|] [j|]]; run_rest; wk_fields.
Qed.

Lemma reachable_wellKept (w : World) : reachable w -> WellKept w.
Proof.
  induction 1 as [|w ev _ IH Hoff].
  - exact wellKept_initial.
  - exact (wellKept_dispatch w ev IH Hoff).
Qed.

(** In no world the modal reaches does a reposition change the geo
    method: the branch that sets it to manual is taken only when it is
    manual already. *)
Lemma reposition_never_changes_geoMethod (w : World) (coords : Coordinates) :
  reachable w ->
  geoMethod (ui (dispatch (CenterChange coords) w)) = geoMethod (ui w).
Proof.
  intros Hr. pose proof (warning_is_manual w (reachable_wellKept w Hr)) as Hwarn.
  open_world w. cbn in Hwarn. run_handler.
  destruct geoMethod0, geoError0 as [msg|]; cbn; try reflexivity.
  symmetry. apply Hwarn. discriminate.
Qed.

(** *** File selection and the media handle (C5) *)

(** Neither a file selection nor the rest of one revokes a URL: the
    only calls to [URL.revokeObjectURL] are those of resetState and of
    handleBackFromLocation. *)
Lemma selection_revokes_nothing
    (w : World) (e : option File) (minted : string) (u : string) :
  revoked (dispatch (FileSelect e minted) w) u -> revoked w u.
Proof.
  unfold revoked, dispatch, handleFileSelect. cbv zeta.
  destruct e as [f|]; [|auto].
  destruct (negb _ && negb _); [open_world w; unfold_setters; auto|].
  destruct (size f >? MAX_SIZE)%Z; [open_world w; unfold_setters; auto|].
  destruct (isHeicFile f); open_world w; unfold_setters; cbn; [auto|].
  rewrite !In_snoc. intros [[H|H]|H]; [exact H | discriminate ..].
Qed.

Lemma settlement_revokes_nothing
    (w : World) (n : nat) (r : Settlement) (u : string) :
  revoked (dispatch (Settles n r) w) u -> revoked w u.
Proof.
  unfold revoked, dispatch, settle.
  destruct (nth_error (pending w) n) as [t|]; [|auto].
  destruct t as [sf img| |g], r as [converted minted|pos|outcome];
    cbn [resume]; auto.
  - unfold afterConversion.
    destruct (convertHeicToJpeg sf converted) as [[[b|] cf]|];
      open_world w; unfold_setters; cbn; auto.
    rewrite !In_snoc. intros [[H|H]|H]; [exact H | discriminate ..].
  - open_world w. destruct pos; run_rest; auto.
  - open_world w. destruct outcome as [|[|] [j|]]; run_rest; auto.
    rewrite In_snoc. intros [H|H]; [exact H | discriminate].
Qed.

(** C5 fails on the code. A proprietary photo is selected and the modal
    is closed while the conversion runs; the modal is opened again, a
    photo is selected and located; then the conversion of the first
    selection fails, which puts the modal back on the select step with
    the photo and its URL still held. The selection accepted there puts
    the new file and the new URL in place of the held ones: the held URL
    is never revoked, and when the automatic fix fails the coordinates
    are still those found for the superseded photo. *)
Theorem selection_over_held_media_revokes_nothing :
  let w1 := dispatch (FileSelect (Some MediaFacts.sampleHeic) "a0")
                     initialWorld in
  let w2 := dispatch Close w1 in
  let w3 := dispatch (FileSelect (Some samplePhoto) "b1") w2 in
  let w4 := dispatch (Settles 1 (Positioned (Some cityHall))) w3 in
  let w5 := dispatch (Settles 0 (Converted ConvRejected "a0")) w4 in
  let w6 := dispatch (FileSelect (Some secondPhoto) "c2") w5 in
  let w7 := dispatch (Settles 0 (Positioned None)) w6 in
  reachable w7 /\
  step (ui w1) = Converting /\
  step (ui w5) = Select /\
  offered w5 (FileSelect (Some secondPhoto) "c2") = true /\
  file (ui w5) = Some samplePhoto /\
  mediaUrl (ui w5) = Some "blob:b1" /\
  coordinates (ui w5) = Some cityHall /\
  step (ui w6) = Location /\
  file (ui w6) = Some secondPhoto /\
  mediaUrl (ui w6) = Some "blob:c2" /\
  coordinates (ui w6) = Some cityHall /\
  effects w6 = (effects w5 ++ [CreateObjectURL "blob:c2";
                               AnalyticsMediaSelected "image"])%list /\
  coordinates (ui w7) = Some cityHall /\
  geoMethod (ui w7) = Manual /\
  created w7 "blob:b1" /\
  ~ revoked w7 "blob:b1".
Proof.
  cbv zeta. split.
  { repeat (apply reach_step; [|reflexivity]). apply reach_init. }
  repeat split.
  - unfold created. vm_compute. auto 10.
  - unfold revoked. vm_compute. intros H.
    repeat (destruct H as [H | H]; [discriminate|]). exact H.
Qed.

End ModalFacts.
(* ================================================================== *)
(** ** More on the media normalization *)
(* ================================================================== *)

Module MediaMore.
Import Js Media MediaFacts.

Lemma toLowerCase_length (s : string) :
  String.length (toLowerCase s) = String.length s.
Proof.
  induction s as [|c s IH]; cbn [toLowerCase String.length]; congruence.
Qed.

(** The renaming ([replace] with the pattern) and the extension test of
    the classifier ([toLowerCase] and [endsWith]) agree: a name is
    rewritten exactly when it carries the proprietary extension, and then
    its last five characters are replaced by [.jpg], the stem being kept
    as it is, letter case included. *)
Theorem rename_agrees_with_classifier (s : string) :
  (hasHeicExt s = false <-> replace_heic_ext s = s) /\
  (hasHeicExt s = true ->
   exists stem ext,
     s = stem ++ ext /\ String.length ext = 5%nat /\
     replace_heic_ext s = stem ++ ".jpg").
Proof.
  split; [split|].
  - apply name_without_ext_is_kept.
  - intros Heq. rewrite <- Heq. apply replaced_name_has_no_heic_ext.
  - intros Hx.
    destruct (replace_heic_ext_spec s) as [(p & e & Hs & He & Hr) | [Hn _]];
      [|congruence].
    exists p, e. repeat split; try assumption.
    apply matches_heic_ext_iff in He.
    rewrite <- (toLowerCase_length e). destruct He as [-> | ->]; reflexivity.
Qed.

Lemma rename_agrees_with_classifier_witness :
  exists stem ext,
    "Ramp.Side.HeIc" = stem ++ ext /\ String.length ext = 5%nat /\
    replace_heic_ext "Ramp.Side.HeIc" = stem ++ ".jpg".
Proof.
  exact (proj2 (rename_agrees_with_classifier "Ramp.Side.HeIc") eq_refl).
Defined.

(** Renaming a name that was renamed already changes nothing. *)
Theorem replace_heic_ext_idempotent (s : string) :
  replace_heic_ext (replace_heic_ext s) = replace_heic_ext s.
Proof.
  apply name_without_ext_is_kept, replaced_name_has_no_heic_ext.
Qed.

(** A converted file is never classified as proprietary again, whatever
    the converter returned and however the original was classified. *)
Lemma converted_file_is_not_heic
    (f : File) (converted : Heic2anyResult) (blob : option Blob) (out : File) :
  convertHeicToJpeg f converted = Some (blob, out) ->
  isHeicFile out = false /\ Js.startsWith (type out) "image/" = true.
Proof.
  intros H.
  assert (Ho : name out = replace_heic_ext (name f) /\ type out = "image/jpeg").
  { destruct converted as [|b|bs]; cbn in H; [discriminate| |];
      injection H as _ <-; split; reflexivity. }
  destruct Ho as [Hn Ht].
  rewrite isHeicFile_signals, Hn, Ht, replaced_name_has_no_heic_ext.
  split; reflexivity.
Qed.

End MediaMore.

(* ================================================================== *)
(** ** More on the upload modal *)
(* ================================================================== *)

Module ModalMore.
Import Media Modal MediaFacts MediaMore ModalFacts.

(** *** Closing *)

(** Whatever the modal holds, closing it leaves the initial state, revokes
    the held media URL if there is one and calls [onClose]; closing once
    more only calls [onClose] again: nothing is revoked twice. Closing
    cancels nothing: the promises in flight stay in flight. *)
Theorem handleClose_resets (w : World) :
  let w1 := dispatch Close w in
  ui w1 = initialState /\
  (forall u, mediaUrl (ui w) = Some u -> u <> EmptyString ->
             effects w1 = (effects w ++ [RevokeObjectURL u; OnClose])%list) /\
  (mediaUrl (ui w) = None -> effects w1 = (effects w ++ [OnClose])%list) /\
  pending w1 = pending w /\
  dispatch Close w1 =
    {| ui := initialState; effects := (effects w1 ++ [OnClose])%list;
       pending := pending w |}.
Proof.
  open_world w. run_handler.
  destruct mediaUrl0 as [[|a u]|]; cbn; repeat split;
    try discriminate; try (intros u0 H; injection H as <-);
    try congruence; rewrite <- app_assoc; reflexivity.
Qed.

Lemma handleClose_resets_witness :
  let w1 := dispatch Close locatedWorld in
  ui w1 = initialState /\
  effects w1 = [CreateObjectURL "blob:a1"; AnalyticsMediaSelected "image";
                RevokeObjectURL "blob:a1"; OnClose].
Proof.
  pose proof (handleClose_resets locatedWorld) as H. cbv zeta in H.
  destruct H as (H1 & H2 & _ & _).
  split; [exact H1|].
  apply (H2 "blob:a1"); [reflexivity | discriminate].
Defined.

(** *** The analysis step *)

(** Without a file or without coordinates, confirming the location does
    nothing: no request is made, nothing is waited for and no cell
    changes. *)
Theorem handleAnalyze_needs_file_and_coordinates (w : World) :
  file (ui w) = None \/ coordinates (ui w) = None ->
  dispatch Analyze w = w.
Proof.
  intros H. open_world w. cbn in H. unfold_handlers.
  cbn [file coordinates ui].
  destruct H as [-> | ->]; [|destruct file0]; reflexivity.
Qed.

Lemma handleAnalyze_needs_file_and_coordinates_witness :
  dispatch Analyze initialWorld = initialWorld.
Proof.
  apply (handleAnalyze_needs_file_and_coordinates initialWorld).
  left. reflexivity.
Defined.

(** When the request succeeds, the rest of handleAnalyze stores the
    judgment in place of any earlier one, moves to the review step and
    clears the analyzing flag; file, media URL, coordinates, geo method,
    warning and error message are those of the world the result arrives
    in. The analytics call reports the geo method that was current when
    the location was confirmed, whatever it is by now. *)
Theorem afterFetch_success_stores_judgment
    (result : AnalyzeResponse) (w : World) (n : nat) (g : GeoMethod) :
  nth_error (pending w) n = Some (AwaitFetch g) ->
  dispatch (Settles n (Fetched (Response true (Some result)))) w =
  {| ui := mkState Review (file (ui w)) (mediaUrl (ui w))
                   (coordinates (ui w)) (geoMethod (ui w)) (geoError (ui w))
                   (Some result) false (error (ui w));
     effects := (effects w ++
                 [AnalyticsAiResultShown (category result) (severity result)
                                         (confidence result) g])%list;
     pending := remove_nth n (pending w) |}.
Proof.
  intros Hn. unfold dispatch, settle. rewrite Hn. cbn [resume].
  open_world w. run_rest. reflexivity.
Qed.

Definition sampleJudgment : AnalyzeResponse :=
  {| category := "broken_curb_ramp"; severity := "medium";
     summary := "The curb ramp is cracked"; confidence := 0.8 |}.

(** The located photo under analysis. *)
Definition analyzingWorld : World := dispatch Analyze locatedWorld.

(** The modal on the review step, after the analysis of the located
    photo succeeded. *)
Definition reviewWorld : World :=
  dispatch (Settles 0 (Fetched (Response true (Some sampleJudgment))))
           analyzingWorld.

Lemma reviewWorld_reachable : reachable reviewWorld.
Proof.
  unfold reviewWorld, analyzingWorld.
  apply reach_step; [|reflexivity].
  apply reach_step; [|reflexivity].
  apply locatedWorld_reachable.
Defined.

Lemma afterFetch_success_stores_judgment_witness :
  reviewWorld =
  {| ui := mkState Review (Some samplePhoto) (Some "blob:a1") (Some cityHall)
                   Auto None (Some sampleJudgment) false None;
     effects :=
       [CreateObjectURL "blob:a1"; AnalyticsMediaSelected "image";
        FetchAnalyze samplePhoto;
        AnalyticsAiResultShown "broken_curb_ramp" "medium" 0.8 Auto];
     pending := [] |}.
Proof.
  exact (afterFetch_success_stores_judgment sampleJudgment analyzingWorld 0
           Auto eq_refl).
Defined.

(** *** Selecting a file *)

(** A file that passes the validation of handleFileSelect. *)
Definition passesValidation (f : File) : bool :=
  (isImage f || isVideo f) && negb (size f >? MAX_SIZE)%Z.

(** An accepted selection, up to where the handler first waits. A file
    that is not proprietary is installed at once, with a URL created for
    it, and the modal waits for the automatic fix on the location step;
    the coordinates are not touched. A proprietary file is only waited
    for, on the converting step: no URL is created yet. In both cases
    the error message is cleared and nothing is revoked. *)
Theorem accepted_selection_installs_media
    (f : File) (minted : string) (w : World) :
  passesValidation f = true ->
  dispatch (FileSelect (Some f) minted) w =
  if isHeicFile f then
    {| ui := mkState Converting (file (ui w)) (mediaUrl (ui w))
                     (coordinates (ui w)) (geoMethod (ui w))
                     (geoError (ui w)) (analysis (ui w))
                     (isAnalyzing (ui w)) None;
       effects := effects w;
       pending := (pending w ++ [AwaitConversion f true])%list |}
  else
    {| ui := mkState Location (Some f) (Some ("blob:" ++ minted))
                     (coordinates (ui w)) (geoMethod (ui w))
                     (geoError (ui w)) (analysis (ui w))
                     (isAnalyzing (ui w)) None;
       effects := (effects w ++
                   [CreateObjectURL ("blob:" ++ minted);
                    AnalyticsMediaSelected
                      (if isImage f then "image" else "video")])%list;
       pending := (pending w ++ [AwaitPosition])%list |}.
Proof.
  unfold passesValidation. intros Hv.
  apply andb_true_iff in Hv as [Hk Hs]. apply negb_true_iff in Hs.
  unfold dispatch, exec, handleFileSelect.
  change (Js.startsWith (type f) "image/" || isHeicFile f) with (isImage f).
  change (Js.startsWith (type f) "video/") with (isVideo f).
  cbv zeta.
  replace (negb (isImage f) && negb (isVideo f)) with false
    by (destruct (isImage f), (isVideo f); cbn in *; congruence).
  rewrite Hs. destruct (isHeicFile f) eqn:Hh.
  - assert (Hi : isImage f = true) by (unfold isImage; rewrite Hh; apply orb_true_r).
    rewrite Hi. open_world w. unfold_setters. reflexivity.
  - open_world w. unfold_setters. cbn. rewrite <- app_assoc. reflexivity.
Qed.

Lemma accepted_selection_installs_media_witness :
  dispatch (FileSelect (Some sampleHeic) "a1") initialWorld =
    {| ui := mkState Converting None None None Auto None None false None;
       effects := [];
       pending := [AwaitConversion sampleHeic true] |} /\
  dispatch (FileSelect (Some samplePhoto) "a1") initialWorld =
    {| ui := mkState Location (Some samplePhoto) (Some "blob:a1") None Auto
                     None None false None;
       effects := [CreateObjectURL "blob:a1"; AnalyticsMediaSelected "image"];
       pending := [AwaitPosition] |}.
Proof.
  split.
  - exact (accepted_selection_installs_media sampleHeic "a1" initialWorld
             eq_refl).
  - exact (accepted_selection_installs_media samplePhoto "a1" initialWorld
             eq_refl).
Defined.

(** When the conversion of a proprietary file yields no blob (the
    converter rejects, or returns an empty collection), the rest of
    handleFileSelect sets the error message and the select step and
    nothing else: no object URL is created, and whatever file, media URL
    and coordinates the modal holds by then stay in place. *)
Theorem failed_conversion_returns_to_select
    (f : File) (img : bool) (converted : Heic2anyResult) (minted : string)
    (w : World) (n : nat) :
  nth_error (pending w) n = Some (AwaitConversion f img) ->
  chosenBlob converted = None ->
  dispatch (Settles n (Converted converted minted)) w =
  {| ui := mkState Select (file (ui w)) (mediaUrl (ui w))
                   (coordinates (ui w)) (geoMethod (ui w)) (geoError (ui w))
                   (analysis (ui w)) (isAnalyzing (ui w))
                   (Some "Failed to convert HEIC image. Please try a different format.");
     effects := effects w;
     pending := remove_nth n (pending w) |}.
Proof.
  intros Hn Hb. unfold dispatch, settle. rewrite Hn. cbn [resume].
  unfold afterConversion.
  assert (Hc : convertHeicToJpeg f converted = None \/
               exists cf, convertHeicToJpeg f converted = Some (None, cf)).
  { destruct converted as [|b|bs]; cbn in Hb |- *; [auto|discriminate|].
    rewrite Hb. eauto. }
  destruct Hc as [-> | [cf ->]];
    open_world w; unfold_setters; reflexivity.
Qed.

Lemma failed_conversion_returns_to_select_witness :
  run [FileSelect (Some sampleHeic) "a1";
       Settles 0 (Converted (ConvBlobs []) "a1")] initialWorld =
  {| ui := mkState Select None None None Auto None None false
                   (Some "Failed to convert HEIC image. Please try a different format.");
     effects := [];
     pending := [] |}.
Proof.
  exact (failed_conversion_returns_to_select sampleHeic true (ConvBlobs [])
           "a1" (dispatch (FileSelect (Some sampleHeic) "a1") initialWorld) 0
           eq_refl eq_refl).
Defined.

(** A conversion that yields a blob installs the converted file with a
    URL created for it and waits for the automatic fix on the location
    step, in place of whatever the modal holds by then; nothing is
    revoked. *)
Theorem conversion_installs_converted_file
    (f : File) (img : bool) (converted : Heic2anyResult) (minted : string)
    (blob : Blob) (w : World) (n : nat) :
  nth_error (pending w) n = Some (AwaitConversion f img) ->
  chosenBlob converted = Some blob ->
  dispatch (Settles n (Converted converted minted)) w =
  {| ui := mkState Location
                   (Some (new_File [PartBlob blob]
                                   (Js.replace_heic_ext (name f)) "image/jpeg"))
                   (Some ("blob:" ++ minted))
                   (coordinates (ui w)) (geoMethod (ui w)) (geoError (ui w))
                   (analysis (ui w)) (isAnalyzing (ui w)) (error (ui w));
     effects := (effects w ++
                 [CreateObjectURL ("blob:" ++ minted);
                  AnalyticsMediaSelected (if img then "image" else "video")])%list;
     pending := (remove_nth n (pending w) ++ [AwaitPosition])%list |}.
Proof.
  intros Hn Hb. unfold dispatch, settle. rewrite Hn. cbn [resume].
  unfold afterConversion.
  assert (Hc : convertHeicToJpeg f converted =
               Some (Some blob, new_File [PartBlob blob]
                                         (Js.replace_heic_ext (name f))
                                         "image/jpeg")).
  { destruct converted as [|b|bs]; cbn in Hb |- *; [discriminate| |].
    - injection Hb as ->. reflexivity.
    - rewrite Hb. reflexivity. }
  rewrite Hc. open_world w. unfold_setters. cbn.
  rewrite <- app_assoc. reflexivity.
Qed.

Lemma conversion_installs_converted_file_witness :
  run [FileSelect (Some sampleHeic) "a0";
       Settles 0 (Converted (ConvBlobs [sampleBlob; otherBlob]) "a1")]
      initialWorld =
  {| ui := mkState Location (Some convertedSample) (Some "blob:a1") None Auto
                   None None false None;
     effects := [CreateObjectURL "blob:a1"; AnalyticsMediaSelected "image"];
     pending := [AwaitPosition] |}.
Proof.
  exact (conversion_installs_converted_file sampleHeic true
           (ConvBlobs [sampleBlob; otherBlob]) "a1" sampleBlob
           (dispatch (FileSelect (Some sampleHeic) "a0") initialWorld) 0
           eq_refl eq_refl).
Defined.

(** *** What a held file looks like *)

(** A file can be rendered when its content type is an image or a video
    type and it is not classified as proprietary. *)
Definition renderable (f : File) : Prop :=
  isHeicFile f = false /\
  Js.startsWith (type f) "image/" || Js.startsWith (type f) "video/" = true.

Lemma renderable_dispatch (w : World) (ev : Event) :
  (forall f, file (ui w) = Some f -> renderable f) ->
  forall f, file (ui (dispatch ev w)) = Some f -> renderable f.
Proof.
  intros Hw.
  destruct ev as [e minted|coords| | | | | |n r].
  - destruct e as [f0|]; [|exact Hw].
    unfold dispatch, handleFileSelect. cbv zeta.
    destruct (negb _ && negb _) eqn:Hk; [open_world w; exact Hw|].
    destruct (size f0 >? MAX_SIZE)%Z; [open_world w; exact Hw|].
    destruct (isHeicFile f0) eqn:Hh; open_world w; unfold_setters;
      cbn in *; [exact Hw|].
    intros f H. injection H as <-. split; [exact Hh|].
    rewrite orb_false_r in Hk.
    destruct (Js.startsWith (type f0) "image/"),
             (Js.startsWith (type f0) "video/"); cbn in *; congruence.
  - open_world w. run_handler.
    destruct (isAuto geoMethod0 && isNull geoError0); exact Hw.
  - open_world w. run_handler.
    destruct file0 as [f0|], coordinates0 as [c|]; exact Hw.
  - open_world w. run_handler.
    destruct file0 as [f0|], mediaUrl0 as [[|a url]|], coordinates0 as [c|],
             analysis0 as [j|]; cbn; try exact Hw; discriminate.
  - open_world w. run_handler.
    destruct mediaUrl0 as [[|a url]|]; cbn; discriminate.
  - open_world w. run_handler. exact Hw.
  - open_world w. run_handler.
    destruct mediaUrl0 as [[|a url]|]; cbn; discriminate.
  - unfold dispatch, settle.
    destruct (nth_error (pending w) n) as [t|]; [|exact Hw].
    destruct t as [sf img| |g], r as [converted minted|pos|outcome];
      cbn [resume]; try exact Hw.
    + unfold afterConversion.
      destruct (convertHeicToJpeg sf converted) as [[[b|] cf]|] eqn:Hc;
        open_world w; unfold_setters; cbn in *; try exact Hw.
      intros f H. injection H as <-.
      destruct (converted_file_is_not_heic _ _ _ _ Hc) as [Hn Hi].
      split; [exact Hn|]. now rewrite Hi.
    + open_world w. destruct pos; run_rest; exact Hw.
    + open_world w. destruct outcome as [|[|] [j|]]; run_rest; exact Hw.
Qed.

(** In every world the modal reaches, whatever the order in which
    promises settle, a held file comes with its media URL, is of an image
    or video content type and is not classified as proprietary: what the
    previews and the analysis receive can be rendered. *)
Theorem held_file_is_renderable (w : World) (f : File) :
  reachable w ->
  file (ui w) = Some f ->
  mediaUrl (ui w) <> None /\
  isHeicFile f = false /\
  Js.startsWith (type f) "image/" || Js.startsWith (type f) "video/" = true.
Proof.
  intros Hr Hf. split.
  - pose proof (media_together w (reachable_wellKept w Hr)) as Htog.
    rewrite Hf in Htog. cbn in Htog.
    destruct (mediaUrl (ui w)); [discriminate | discriminate Htog].
  - revert f Hf. induction Hr as [|w ev Hr IH Hoff].
    + discriminate.
    + exact (renderable_dispatch w ev IH).
Qed.

(** The converted photo on the location step, after the modal was closed
    during the conversion and a photo was selected in the meantime. *)
Definition supersededWorld : World :=
  run [FileSelect (Some sampleHeic) "a0"; Close;
       FileSelect (Some samplePhoto) "b1";
       Settles 0 (Converted (ConvBlob sampleBlob) "a1")] initialWorld.

Lemma supersededWorld_reachable : reachable supersededWorld.
Proof.
  unfold supersededWorld. cbn [run fold_left].
  repeat (apply reach_step; [|reflexivity]). apply reach_init.
Defined.

Lemma held_file_is_renderable_witness :
  file (ui supersededWorld) = Some convertedSample /\
  mediaUrl (ui supersededWorld) <> None /\
  isHeicFile convertedSample = false /\
  Js.startsWith (type convertedSample) "image/"
  || Js.startsWith (type convertedSample) "video/" = true.
Proof.
  split; [reflexivity|].
  exact (held_file_is_renderable supersededWorld convertedSample
           supersededWorld_reachable eq_refl).
Defined.

(** *** Submitting *)

(** The report handleSubmit assembles from a state. *)
Definition draftOf (f : File) (url : string) (c : Coordinates)
    (a : AnalyzeResponse) (m : GeoMethod) : ReportDraft :=
  {| d_coordinates := c;
     d_mediaUrl := url;
     d_mediaType := mediaKind f;
     d_fileName := name f;
     d_fileSize := size f;
     d_analysis := a;
     d_geoMethod := m |}.

(** In every world the modal reaches, Submit with the file, the media
    URL, the coordinates and the judgment all there hands the assembled
    report to [onSubmit], revokes the media URL that this report
    carries, calls [onClose] and leaves the initial state; with one of
    them missing it does nothing at all. *)
Theorem submit_hands_over_the_draft (w : World) :
  reachable w ->
  (forall f url c a,
     file (ui w) = Some f -> mediaUrl (ui w) = Some url ->
     coordinates (ui w) = Some c -> analysis (ui w) = Some a ->
     dispatch Submit w =
       {| ui := initialState;
          effects := (effects w ++
                      [OnSubmit (draftOf f url c a (geoMethod (ui w)));
                       RevokeObjectURL url;
                       OnClose])%list;
          pending := pending w |}) /\
  (file (ui w) = None \/ mediaUrl (ui w) = None \/
   coordinates (ui w) = None \/ analysis (ui w) = None ->
   dispatch Submit w = w).
Proof.
  intros Hr.
  pose proof (held_is_truthy w (reachable_wellKept w Hr)) as Htr.
  split.
  - intros f url c a Hf Hu Hc Ha.
    specialize (Htr url Hu).
    open_world w. cbn in Hf, Hu, Hc, Ha. subst.
    destruct url as [|ch url]; [discriminate|].
    run_handler. unfold draftOf. f_equal.
    rewrite <- !app_assoc. reflexivity.
  - intros H. open_world w. cbn in H. unfold_handlers.
    cbn [file mediaUrl coordinates analysis ui].
    destruct file0, mediaUrl0, coordinates0, analysis0;
      try reflexivity; destruct H as [H | [H | [H | H]]]; discriminate H.
Qed.

Lemma submit_hands_over_the_draft_witness :
  dispatch Submit reviewWorld =
    {| ui := initialState;
       effects :=
         [CreateObjectURL "blob:a1"; AnalyticsMediaSelected "image";
          FetchAnalyze samplePhoto;
          AnalyticsAiResultShown "broken_curb_ramp" "medium" 0.8 Auto;
          OnSubmit (draftOf samplePhoto "blob:a1" cityHall sampleJudgment Auto);
          RevokeObjectURL "blob:a1";
          OnClose];
       pending := [] |}.
Proof.
  exact (proj1 (submit_hands_over_the_draft reviewWorld reviewWorld_reachable)
               samplePhoto "blob:a1" cityHall sampleJudgment
               eq_refl eq_refl eq_refl eq_refl).
Defined.

(** *** When the automatic fix fails *)

Lemma afterPosition_failure (w : World) (n : nat) :
  nth_error (pending w) n = Some AwaitPosition ->
  dispatch (Settles n (Positioned None)) w =
  {| ui := mkState (step (ui w)) (file (ui w)) (mediaUrl (ui w))
                   (coordinates (ui w)) Manual
                   (Some "Could not get your location. Pan the map to set location.")
                   (analysis (ui w)) (isAnalyzing (ui w)) (error (ui w));
     effects := effects w;
     pending := remove_nth n (pending w) |}.
Proof.
  intros Hn. unfold dispatch, settle. rewrite Hn. cbn [resume].
  open_world w. run_rest. reflexivity.
Qed.

(** A fix that fails leaves the coordinates as they are, sets the manual
    geo method and shows a warning; the reposition of the map that
    follows sets the coordinates, clears the warning and keeps the manual
    geo method. Neither touches the step, the file or the media URL. *)
Theorem failed_fix_falls_back_to_manual
    (w : World) (n : nat) (coords : Coordinates) :
  nth_error (pending w) n = Some AwaitPosition ->
  let w1 := dispatch (Settles n (Positioned None)) w in
  let w2 := dispatch (CenterChange coords) w1 in
  (coordinates (ui w1) = coordinates (ui w) /\
   geoMethod (ui w1) = Manual /\
   geoError (ui w1) =
     Some "Could not get your location. Pan the map to set location." /\
   step (ui w1) = step (ui w) /\ file (ui w1) = file (ui w) /\
   mediaUrl (ui w1) = mediaUrl (ui w) /\
   effects w1 = effects w /\ pending w1 = remove_nth n (pending w)) /\
  (coordinates (ui w2) = Some coords /\
   geoMethod (ui w2) = Manual /\
   geoError (ui w2) = None /\
   step (ui w2) = step (ui w) /\ file (ui w2) = file (ui w) /\
   mediaUrl (ui w2) = mediaUrl (ui w) /\
   effects w2 = effects w /\ pending w2 = remove_nth n (pending w)).
Proof.
  intros Hn. cbv zeta. rewrite (afterPosition_failure w n Hn).
  open_world w. run_handler. repeat split.
Qed.

Lemma failed_fix_falls_back_to_manual_witness :
  let w1 := run [FileSelect (Some samplePhoto) "a1";
                 Settles 0 (Positioned None)] initialWorld in
  let w2 := dispatch (CenterChange cityHall) w1 in
  (coordinates (ui w1) = None /\ geoMethod (ui w1) = Manual /\
   offered w1 Analyze = false) /\
  (coordinates (ui w2) = Some cityHall /\ geoMethod (ui w2) = Manual /\
   geoError (ui w2) = None /\ step (ui w2) = Location /\
   offered w2 Analyze = true).
Proof.
  pose proof (failed_fix_falls_back_to_manual
                (dispatch (FileSelect (Some samplePhoto) "a1") initialWorld)
                0 cityHall eq_refl) as H.
  cbv zeta in H.
  destruct H as ((H1 & H2 & _) & (H3 & H4 & H5 & H6 & _)).
  split; [split; [exact H1 | split; [exact H2 | reflexivity]]|].
  split; [exact H3|]. split; [exact H4|]. split; [exact H5|].
  split; [exact H6 | reflexivity].
Defined.

(** *** Accounting for media URLs *)

(** How often a URL was created, how often it was revoked, and whether
    it is the one held. *)
Definition isCreation (u : string) (e : Effect) : nat :=
  match e with
  | CreateObjectURL v => if v =? u then 1 else 0
  | _ => 0
  end.

Definition isRevocation (u : string) (e : Effect) : nat :=
  match e with
  | RevokeObjectURL v => if v =? u then 1 else 0
  | _ => 0
  end.

Definition creations (u : string) (effs : list Effect) : nat :=
  list_sum (map (isCreation u) effs).

Definition revocations (u : string) (effs : list Effect) : nat :=
  list_sum (map (isRevocation u) effs).

Definition holding (s : ModalState) (u : string) : nat :=
  match mediaUrl s with
  | Some v => if v =? u then 1 else 0
  | None => 0
  end.

(** No URL is revoked more often than it was created, the held one
    counting as still to be revoked. *)
Definition Covered (w : World) : Prop :=
  forall u, (revocations u (effects w) + holding (ui w) u
             <= creations u (effects w))%nat.

Lemma creations_snoc (u : string) (effs : list Effect) (e : Effect) :
  creations u (effs ++ [e]) = (creations u effs + isCreation u e)%nat.
Proof.
  unfold creations. rewrite map_app, list_sum_app. cbn. lia.
Qed.

Lemma revocations_snoc (u : string) (effs : list Effect) (e : Effect) :
  revocations u (effs ++ [e]) = (revocations u effs + isRevocation u e)%nat.
Proof.
  unfold revocations. rewrite map_app, list_sum_app. cbn. lia.
Qed.

Arguments creations : simpl never.
Arguments revocations : simpl never.
Arguments holding : simpl never.

Ltac cover Hb :=
  let u := fresh "u" in
  intros u; specialize (Hb u); unfold holding in *;
  cbn [ui effects mediaUrl] in *;
  rewrite ?creations_snoc, ?revocations_snoc;
  cbn [isCreation isRevocation];
  repeat match goal with
         | |- context [(?a =? ?b)%string] => destruct (a =? b)%string
         | H : context [(?a =? ?b)%string] |- _ => destruct (a =? b)%string
         end; lia.

Lemma covered_dispatch (w : World) (ev : Event) :
  WellKept w -> Covered w -> Covered (dispatch ev w).
Proof.
  intros Hw Hb. pose proof (held_is_truthy w Hw) as Htr. clear Hw.
  unfold Covered in *.
  destruct ev as [e minted|coords| | | | | |n r].
  - destruct e as [f0|]; [|exact Hb].
    unfold dispatch, handleFileSelect. cbv zeta.
    destruct (negb _ && negb _); [open_world w; unfold_setters; cover Hb|].
    destruct (size f0 >? MAX_SIZE)%Z; [open_world w; unfold_setters; cover Hb|].
    destruct (isHeicFile f0); open_world w; unfold_setters; cover Hb.
  - open_world w. run_handler.
    destruct (isAuto geoMethod0 && isNull geoError0); cover Hb.
  - open_world w. run_handler.
    destruct file0 as [f0|], coordinates0 as [c|]; cover Hb.
  - open_world w. cbn in Htr. run_handler.
    destruct file0 as [f0|], mediaUrl0 as [[|a url]|], coordinates0 as [c|],
             analysis0 as [j|]; cbn;
      try (specialize (Htr _ eq_refl); discriminate); cover Hb.
  - open_world w. cbn in Htr. run_handler.
    destruct mediaUrl0 as [[|a url]|]; cbn;
      try (specialize (Htr _ eq_refl); discriminate); cover Hb.
  - open_world w. run_handler. cover Hb.
  - open_world w. cbn in Htr. run_handler.
    destruct mediaUrl0 as [[|a url]|]; cbn;
      try (specialize (Htr _ eq_refl); discriminate); cover Hb.
  - unfold dispatch, settle.
    destruct (nth_error (pending w) n) as [t|]; [|exact Hb].
    destruct t as [sf img| |g], r as [converted minted|pos|outcome];
      cbn [resume]; try exact Hb.
    + unfold afterConversion.
      destruct (convertHeicToJpeg sf converted) as [[[b|] cf]|];
        open_world w; unfold_setters; cover Hb.
    + open_world w. destruct pos; run_rest; cover Hb.
    + open_world w. destruct outcome as [|[|] [j|]]; run_rest; cover Hb.
Qed.

(** In every world the modal reaches, whatever the order in which
    promises settle, no media URL has been revoked more often than it was
    created, the held URL counting as one revocation still to come:
    nothing is revoked before it exists, and a URL that was minted once
    is revoked at most once and not while it is held. (A URL can be
    left behind unrevoked; see the selection over held media.) *)
Theorem media_urls_are_never_released_twice (w : World) (u : string) :
  reachable w ->
  (revocations u (effects w) + holding (ui w) u
   <= creations u (effects w))%nat.
Proof.
  intros Hr. revert u. change (Covered w).
  induction Hr as [|w ev Hr IH Hoff].
  - intros u. unfold revocations, creations, holding. cbn. lia.
  - exact (covered_dispatch w ev (reachable_wellKept w Hr) IH).
Qed.

Lemma media_urls_are_never_released_twice_witness :
  creations "blob:b1" (effects supersededWorld) = 1%nat /\
  revocations "blob:b1" (effects supersededWorld) = 0%nat /\
  holding (ui supersededWorld) "blob:b1" = 0%nat /\
  (revocations "blob:a1" (effects supersededWorld)
   + holding (ui supersededWorld) "blob:a1"
   <= creations "blob:a1" (effects supersededWorld))%nat.
Proof.
  split; [reflexivity|]. split; [reflexivity|]. split; [reflexivity|].
  exact (media_urls_are_never_released_twice supersededWorld "blob:a1"
           supersededWorld_reachable).
Defined.

End ModalMore.
(* ================================================================== *)
(** ** The areas route: DELETE /api/areas/[id] *)
(* ================================================================== *)

Module AreasRoute.
Import Route.

Local Open Scope list_scope.

Section Store.

(** The platform and the store, as for the reports route, and in
    addition [ObjectId.isValid] and the constructor [new ObjectId(id)]
    ([None] when it throws). *)
Variable ObjectId : Type.
Variable oid_eqb : ObjectId -> ObjectId -> bool.
Variable oid_toString : ObjectId -> string.
Variable toISOString : Date -> string.
Variable geoIntersects : GeoPolygon -> GeoPoint -> bool.
Variable oid_isValid : string -> bool.
Variable oid_ofString : string -> option ObjectId.

#[warnings="-notation-for-abbreviation"]
Local Notation Area := (Route.Area ObjectId).
#[warnings="-notation-for-abbreviation"]
Local Notation Database := (Route.Database ObjectId).
#[warnings="-notation-for-abbreviation"]
Local Notation idOf := (Route.area_id ObjectId).

(** [collection.deleteOne({ _id })]: the first document with that
    identifier is removed; the result is the collection and the
    [deletedCount]. *)
Fixpoint deleteOne (i : ObjectId) (coll : list Area) : list Area * nat :=
  match coll with
  | [] => ([], 0%nat)
  | a :: rest =>
      if oid_eqb (idOf a) i then (rest, 1%nat)
      else let (rest', deletedCount) := deleteOne i rest in
           (a :: rest', deletedCount)
  end.

(** Whether [getDatabase] resolves and whether the store answers the
    [deleteOne]. *)
Record Env := mkEnv {
  connected : bool;
  deleteOne_resolves : bool
}.

Definition invalidId : HttpResponse :=
  {| status_code := 400; body := JObj [("error", JStr "Invalid area ID")] |}.

Definition notFound : HttpResponse :=
  {| status_code := 404; body := JObj [("error", JStr "Area not found")] |}.

Definition deleted : HttpResponse :=
  {| status_code := 200; body := JObj [("success", JBool true)] |}.

Definition deletionFailed : HttpResponse :=
  {| status_code := 500;
     body := JObj [("error", JStr "Failed to delete area")] |}.

Definition DELETE (env : Env) (id : string) (db : Database)
  : Database * HttpResponse :=
  if negb (oid_isValid id) then (db, invalidId)
  else if connected env then
    match oid_ofString id with
    | Some i =>
        if deleteOne_resolves env then
          let (areas', deletedCount) := deleteOne i (areas db) in
          if Nat.eqb deletedCount 0 then (db, notFound)
          else ({| areas := areas'; reports := reports db |}, deleted)
        else (db, deletionFailed)
    | None => (db, deletionFailed)
    end
  else (db, deletionFailed).

(** *** Properties *)

Hypothesis oid_eqb_eq : forall i j, oid_eqb i j = true <-> i = j.
Hypothesis oid_toString_inj :
  forall i j, oid_toString i = oid_toString j -> i = j.

Lemma deleteOne_spec (i : ObjectId) (coll : list Area) :
  (deleteOne i coll = (coll, 0%nat) /\
   forall a, In a coll -> idOf a <> i) \/
  (exists before a after,
     coll = before ++ a :: after /\ idOf a = i /\
     (forall x, In x before -> idOf x <> i) /\
     deleteOne i coll = (before ++ after, 1%nat)).
Proof.
  induction coll as [|a coll IH]; cbn [deleteOne].
  - left. split; [reflexivity | intros a []].
  - destruct (oid_eqb (idOf a) i) eqn:E.
    + right. apply oid_eqb_eq in E. exists [], a, coll.
      repeat split; [exact E | intros x []].
    + assert (Hne : idOf a <> i).
      { intros Heq. apply oid_eqb_eq in Heq. congruence. }
      destruct IH as [[-> Hall] | (before & x & after & -> & Hx & Hb & ->)].
      * left. split; [reflexivity|]. intros y [<- | Hy]; auto.
      * right. exists (a :: before), x, after.
        repeat split; [exact Hx|].
        intros y [<- | Hy]; auto.
Qed.

Lemma DELETE_200_inv
    (env : Env) (id : string) (db db' : Database) (resp : HttpResponse) :
  DELETE env id db = (db', resp) ->
  status_code resp = 200%Z ->
  exists i before a after,
    oid_isValid id = true /\ oid_ofString id = Some i /\
    connected env = true /\ deleteOne_resolves env = true /\
    areas db = before ++ a :: after /\ idOf a = i /\
    (forall x, In x before -> idOf x <> i) /\
    areas db' = before ++ after /\
    reports db' = reports db /\ resp = deleted.
Proof.
  unfold DELETE. intros H Hs.
  destruct (oid_isValid id); cbn [negb] in H;
    [| injection H as <- <-; discriminate Hs].
  destruct (connected env); [| injection H as <- <-; discriminate Hs].
  destruct (oid_ofString id) as [i|];
    [| injection H as <- <-; discriminate Hs].
  destruct (deleteOne_resolves env);
    [| injection H as <- <-; discriminate Hs].
  destruct (deleteOne_spec i (areas db))
    as [[Hd Hall] | (before & a & after & Hc & Ha & Hb & Hd)];
    rewrite Hd in H; cbn in H; injection H as <- <-;
    [discriminate Hs|].
  exists i, before, a, after. cbn. repeat split; auto.
Qed.

(** What DELETE answers and does. A malformed identifier is answered
    with 400, and only a malformed one is. Only a 200 changes the store:
    it removes the first area with the identifier and nothing else, and
    leaves every report as it was, also those routed to that area. A 404
    means that no area has the identifier. *)
Theorem DELETE_outcomes
    (env : Env) (id : string) (db db' : Database) (resp : HttpResponse) :
  DELETE env id db = (db', resp) ->
  (status_code resp = 400%Z <-> oid_isValid id = false) /\
  (status_code resp <> 200%Z -> db' = db) /\
  (status_code resp = 404%Z ->
   exists i, oid_ofString id = Some i /\
             forall a, In a (areas db) -> idOf a <> i) /\
  (status_code resp = 200%Z ->
   exists i before a after,
     oid_ofString id = Some i /\
     areas db = before ++ a :: after /\ idOf a = i /\
     (forall x, In x before -> idOf x <> i) /\
     areas db' = before ++ after /\
     reports db' = reports db).
Proof.
  intros H. split; [| split; [| split]].
  - revert H. unfold DELETE.
    destruct (oid_isValid id); cbn [negb].
    2:{ intros H. injection H as <- <-. cbn. tauto. }
    destruct (connected env), (oid_ofString id), (deleteOne_resolves env);
      try (intros H; injection H as <- <-; cbn; split; discriminate).
    destruct (deleteOne _ _) as [areas' [|n]]; cbn;
      intros H; injection H as <- <-; cbn; split; discriminate.
  - revert H. unfold DELETE.
    destruct (oid_isValid id); cbn [negb].
    2:{ intros H. injection H as <- <-. reflexivity. }
    destruct (connected env), (oid_ofString id), (deleteOne_resolves env);
      try (intros H; injection H as <- <-; reflexivity).
    destruct (deleteOne _ _) as [areas' [|n]]; cbn;
      intros H; injection H as <- <-; cbn; [reflexivity|].
    intros Hs. now contradiction Hs.
  - revert H. unfold DELETE.
    destruct (oid_isValid id); cbn [negb].
    2:{ intros H. injection H as <- <-. discriminate. }
    destruct (connected env), (oid_ofString id) as [i|],
      (deleteOne_resolves env);
      try (intros H; injection H as <- <-; discriminate).
    destruct (deleteOne_spec i (areas db))
      as [[Hd Hall] | (before & a & after & Hc & Ha & Hb & Hd)];
      rewrite Hd; cbn; intros H; injection H as <- <-; cbn;
      [| discriminate].
    intros _. exists i. auto.
  - intros Hs.
    destruct (DELETE_200_inv env id db db' resp H Hs)
      as (i & before & a & after & _ & Hi & _ & _ & Hdb & Ha & Hb & Hareas
          & Hrep & _).
    exists i, before, a, after. repeat split; assumption.
Qed.


(** *** Deleted areas and later creations *)

#[warnings="-notation-for-abbreviation"]
Local Notation serve :=
  (Route.serve ObjectId oid_eqb oid_toString toISOString geoIntersects).
#[warnings="-notation-for-abbreviation"]
Local Notation act :=
  (Route.act ObjectId oid_eqb oid_toString toISOString geoIntersects).

Definition assignedTo (i : ObjectId) (report : DbReport ObjectId) : Prop :=
  exists r, routing report = Some r /\ assignedAreaId r = oid_toString i.

Definition awaited (p : Pending ObjectId) : DbReport ObjectId :=
  match p with
  | AwaitFindOne _ _ _ report => report
  | AwaitInsertOne _ _ report => report
  end.

(** What holds of a server once no area has identifier [i] and no
    handler in flight has found that area: no report that a handler
    carries, and no report persisted beyond [base], is assigned to
    [i]. *)
Record Clear (i : ObjectId) (base : list (DbReport ObjectId))
    (s : Server ObjectId) : Prop := {
  area_gone : forall a, In a (areas (db s)) -> idOf a <> i;
  waiting_clear :
    forall rid p, In (rid, p) (inflight ObjectId s) ->
                  ~ assignedTo i (awaited p);
  persisted_clear :
    forall doc, In doc (reports (db s)) -> In doc base \/ ~ assignedTo i doc
}.

Lemma take_pending_In (rid : nat) (l : list (nat * Pending ObjectId))
    (p : Pending ObjectId) (rest : list (nat * Pending ObjectId)) :
  take_pending ObjectId rid l = Some (p, rest) ->
  In (rid, p) l /\ forall x, In x rest -> In x l.
Proof.
  revert rest. induction l as [|[r q] l IH]; intros rest; cbn; [discriminate|].
  destruct (Nat.eqb r rid) eqn:Er.
  - intros [= -> <-]. apply Nat.eqb_eq in Er. subst. auto.
  - destruct (take_pending ObjectId rid l) as [[q' rest']|]; [|discriminate].
    intros [= -> <-]. destruct (IH _ eq_refl) as [Hin Hrest].
    split; [now right|]. intros x [<- | Hx]; [now left | right; auto].
Qed.

Lemma assignRouting_clear (i : ObjectId) (db0 : Database) (now0 : Date)
    (report : DbReport ObjectId) :
  (forall a, In a (areas db0) -> idOf a <> i) ->
  ~ assignedTo i report ->
  ~ assignedTo i
      (assignRouting ObjectId oid_toString now0
         (findMatchingArea ObjectId geoIntersects db0 report) report).
Proof.
  intros Hgone Hrep.
  destruct (findMatchingArea ObjectId geoIntersects db0 report) as [a|] eqn:E;
    cbn [assignRouting]; [|exact Hrep].
  intros (r & Hr & Heq). cbn [routing] in Hr. injection Hr as <-.
  cbn [assignedAreaId] in Heq. apply oid_toString_inj in Heq.
  unfold findMatchingArea, findOne in E. apply find_some in E as [Ha _].
  exact (Hgone a Ha Heq).
Qed.

Lemma clear_act (i : ObjectId) (base : list (DbReport ObjectId))
    (a : Action ObjectId) (s : Server ObjectId) :
  Clear i base s -> Clear i base (act a s).
Proof.
  intros [Hgone Hwait Hpers].
  destruct a as [elapsed|rid b|rid|rid j|rid|rid]; cbn [Route.act].
  - constructor; assumption.
  - constructor; cbn [db inflight]; try assumption.
    intros rid' p Hin. apply in_app_or in Hin as [Hin | [Hin | []]];
      [eauto|]. injection Hin as _ <-. cbn [awaited].
    intros (r & Hr & _). discriminate Hr.
  - destruct (take_pending ObjectId rid (inflight ObjectId s))
      as [[[b now0 report|b report] rest]|] eqn:Ht;
      try (constructor; assumption).
    destruct (take_pending_In _ _ _ _ Ht) as [Hin Hrest].
    constructor; cbn [db inflight]; try assumption.
    intros rid' p Hp. apply in_app_or in Hp as [Hp | [Hp | []]];
      [eauto|]. injection Hp as _ <-. cbn [awaited].
    apply assignRouting_clear; [exact Hgone|]. exact (Hwait _ _ Hin).
  - destruct (take_pending ObjectId rid (inflight ObjectId s))
      as [[[b now0 report|b report] rest]|] eqn:Ht;
      try (constructor; assumption).
    destruct (take_pending_In _ _ _ _ Ht) as [Hin Hrest].
    unfold insertOne.
    destruct (existsb _ _);
      constructor; cbn [db inflight areas reports]; try assumption; eauto.
    intros doc Hd. apply in_app_or in Hd as [Hd | [<- | []]]; [auto|].
    right. intros (r & Hr & Heq). apply (Hwait _ _ Hin).
    exists r. cbn [awaited]. split; [exact Hr | exact Heq].
  - destruct (take_pending ObjectId rid (inflight ObjectId s))
      as [[p rest]|] eqn:Ht; [|constructor; assumption].
    destruct (take_pending_In _ _ _ _ Ht) as [Hin Hrest].
    constructor; cbn [db inflight]; try assumption; eauto.
  - constructor; assumption.
Qed.

(** Once an area is deleted, no report is routed to it by a creation
    that starts afterwards. With distinct identifiers in the areas
    collection and no creation in flight when the deletion has been
    answered, then whatever creations start from there on, and in
    whatever order they wait and complete, no report they add to the
    store is assigned to the deleted area. *)
Theorem deleted_area_gets_no_new_reports
    (env : Env) (id : string) (i : ObjectId) (db0 db1 : Database)
    (resp : HttpResponse) (s : Server ObjectId)
    (actions : list (Action ObjectId)) (doc : DbReport ObjectId) :
  NoDup (map idOf (areas db0)) ->
  DELETE env id db0 = (db1, resp) ->
  status_code resp = 200%Z ->
  oid_ofString id = Some i ->
  db s = db1 ->
  inflight ObjectId s = [] ->
  In doc (reports (db (serve actions s))) ->
  ~ In doc (reports db1) ->
  ~ assignedTo i doc.
Proof.
  intros Hnd H Hs Hi Hdb Hidle Hin Hnew.
  destruct (DELETE_200_inv env id db0 db1 resp H Hs)
    as (i' & before & a & after & _ & Hi' & _ & _ & Hsplit & Ha & Hb & Hareas
        & _).
  assert (i' = i) as -> by congruence.
  assert (Hc : Clear i (reports db1) s).
  { constructor.
    - rewrite Hdb, Hareas. intros x Hx Heq.
      rewrite Hsplit, map_app in Hnd. cbn [map] in Hnd.
      apply in_app_or in Hx as [Hx | Hx]; [exact (Hb x Hx Heq)|].
      apply NoDup_remove_2 in Hnd. apply Hnd. apply in_or_app. right.
      rewrite Ha, <- Heq. now apply in_map.
    - rewrite Hidle. intros rid p [].
    - rewrite Hdb. auto. }
  assert (Hall : Clear i (reports db1) (serve actions s)).
  { clear - Hc oid_toString_inj. revert s Hc.
    induction actions as [|x actions IH]; intros s Hc; [exact Hc|].
    cbn [Route.serve fold_left]. apply IH. now apply clear_act. }
  destruct (persisted_clear _ _ _ Hall doc Hin) as [Hold | Hclear];
    [contradiction | exact Hclear].
Qed.

End Store.

(** *** Sample data: the platform of the reports route, with the
    hexadecimal strings as the valid identifiers *)
Module Sample.
Import Route.Sample.

Definition parseHex (s : string) : option N :=
  option_map N.of_hex_uint (HexadecimalString.NilEmpty.uint_of_string s).

Definition isHex (s : string) : bool :=
  negb (s =? EmptyString)%string &&
  match parseHex s with Some _ => true | None => false end.

Definition DELETE := AreasRoute.DELETE N N.eqb isHex parseHex.

Definition reachableStore : Env := mkEnv true true.

Definition unreachableStore : Env := mkEnv false false.

Definition withoutSanFrancisco : Database N :=
  mkDb [retiredDistrict] (reports oneReportStore).

Lemma DELETE_outcomes_witness :
  DELETE reachableStore "a1" oneReportStore = (withoutSanFrancisco, deleted) /\
  ((200 = 400)%Z <-> isHex "a1" = false) /\
  ((200 <> 200)%Z -> withoutSanFrancisco = oneReportStore) /\
  ((200 = 404)%Z ->
   exists i, parseHex "a1" = Some i /\
             forall a, In a (areas oneReportStore) -> area_id N a <> i) /\
  ((200 = 200)%Z ->
   exists i before a after,
     parseHex "a1" = Some i /\
     areas oneReportStore = before ++ a :: after /\ area_id N a = i /\
     (forall x, In x before -> area_id N x <> i) /\
     areas withoutSanFrancisco = before ++ after /\
     reports withoutSanFrancisco = reports oneReportStore).
Proof.
  split; [reflexivity|].
  apply (DELETE_outcomes N N.eqb isHex parseHex N.eqb_eq
           reachableStore "a1" oneReportStore withoutSanFrancisco deleted).
  reflexivity.
Defined.


(** Market Street lies in two active areas; once the first of them is
    deleted, a report from there is routed to the other one. *)
Definition bayArea : Area N :=
  mkArea 163%N (rectangle (-123) 37 (-122) 38) true.

Definition twoAreas : Database N := mkDb [sanFrancisco; bayArea] [].

Definition afterDeletion : Database N :=
  fst (DELETE reachableStore "a1" twoAreas).

Definition laterCreations : list (Action N) :=
  [Begin 1 (bodyAt marketStreet "curb.jpg");
   Begin 2 (bodyAt nullIsland "stairs.jpg");
   Routed 2; Routed 1; Inserted 1 178%N; Inserted 2 179%N].

Definition afterCreations : Server N :=
  Route.Sample.serve laterCreations (mkServer 2000%Z afterDeletion [] []).

Lemma deleted_area_gets_no_new_reports_witness :
  areas afterDeletion = [bayArea] /\
  exists curb stairs r,
    reports (db afterCreations) = [curb; stairs] /\
    routing curb = Some r /\
    assignedAreaId r = "a3" /\
    routing stairs = None /\
    ~ assignedTo N hexString 161%N curb.
Proof.
  split; [reflexivity|].
  eexists. eexists. eexists.
  split; [vm_compute; reflexivity|].
  split; [reflexivity|]. split; [reflexivity|]. split; [reflexivity|].
  refine (deleted_area_gets_no_new_reports N N.eqb hexString msString
            boxContains isHex parseHex N.eqb_eq hexString_inj
            reachableStore "a1" 161%N twoAreas afterDeletion deleted
            (mkServer 2000%Z afterDeletion [] []) laterCreations
            _ _ _ _ _ _ _ _ _).
  - vm_compute. repeat constructor;
      [intros [H|[]]; discriminate H | intros []].
  - reflexivity.
  - reflexivity.
  - reflexivity.
  - reflexivity.
  - reflexivity.
  - vm_compute. left. reflexivity.
  - vm_compute. intros [].
Defined.

End Sample.

End AreasRoute.

(* ================================================================== *)
(** ** The reports hook: useReports *)
(* ================================================================== *)

Module Hook.
Import Route.

Local Open Scope list_scope.

(** The three [useState] cells of the hook. A report is held as the
    JSON value the API sent. *)
Record HookState := mkHook {
  reports : list JSON;
  isLoaded : bool;
  isSubmitting : bool
}.

Definition initialState : HookState :=
  {| reports := []; isLoaded := false; isSubmitting := false |}.

Definition setReports (update : list JSON -> list JSON) (s : HookState)
  : HookState :=
  {| reports := update (reports s); isLoaded := isLoaded s;
     isSubmitting := isSubmitting s |}.

Definition setIsLoaded (v : bool) (s : HookState) : HookState :=
  {| reports := reports s; isLoaded := v; isSubmitting := isSubmitting s |}.

Definition setIsSubmitting (v : bool) (s : HookState) : HookState :=
  {| reports := reports s; isLoaded := isLoaded s; isSubmitting := v |}.

(** The requests the hook sends. *)
Inductive Request :=
| GetRequest (url : string)
| PostRequest (url : string) (body : Body)
| DeleteRequest (url : string).

(** How a request ends: [fetch] rejects; or it resolves with a response
    whose [ok] flag is given, and whose body, where the hook reads it,
    parses to a value of the type the hook declares for it or fails
    to. *)
Inductive FetchResult (A : Type) :=
| Rejected
| Responded (ok : bool) (json : option A).

Arguments Rejected {A}.
Arguments Responded {A}.

(** Each function of the hook is [async]: it sends its request and gives
    up control; the rest runs when the request has ended, on the state
    as it is by then. *)

(** [fetchReports], run once on mount. *)
Definition fetchReports_request : Request := GetRequest "/api/reports".

Definition fetchReports_settled (r : FetchResult (list JSON)) (s : HookState)
  : HookState :=
  let s :=
    match r with
    | Responded true (Some data) => setReports (fun _ => data) s
    | _ => s
    end in
  setIsLoaded true s.

(** [addReport]: up to the [await], and from there on; the result is
    what the promise returned by [addReport] resolves to, [None] for
    [null]. *)
Definition addReport_request (reportData : Body) : Request :=
  PostRequest "/api/reports" reportData.

Definition addReport_started (s : HookState) : HookState :=
  setIsSubmitting true s.

Definition addReport_settled (r : FetchResult JSON) (s : HookState)
  : HookState * option JSON :=
  let (s, result) :=
    match r with
    | Responded true (Some newReport) =>
        (setReports (fun prev => newReport :: prev) s, Some newReport)
    | _ => (s, None)
    end in
  (setIsSubmitting false s, result).

(** [r.id !== id] is false exactly when [r.id] is the string [id]. *)
Definition hasId (id : string) (r : JSON) : bool :=
  match get "id" r with
  | Some (JStr s) => s =? id
  | _ => false
  end.

(** [removeReport]; the body of the response is not read. *)
Definition removeReport_request (id : string) : Request :=
  DeleteRequest ("/api/reports/" ++ id).

Definition removeReport_settled (id : string) (r : FetchResult unit)
    (s : HookState) : HookState :=
  match r with
  | Responded true _ =>
      setReports (fun prev => filter (fun r => negb (hasId id r)) prev) s
  | _ => s
  end.

Definition clearReports (s : HookState) : HookState :=
  setReports (fun _ => []) s.

Definition refreshReports_request : Request := GetRequest "/api/reports".

Definition refreshReports_settled (r : FetchResult (list JSON))
    (s : HookState) : HookState :=
  match r with
  | Responded true (Some data) => setReports (fun _ => data) s
  | _ => s
  end.

(** *** How a response of the reports route reaches the hook *)

(** [response.ok]: the status is in the range 200 to 299. *)
Definition ok (resp : HttpResponse) : bool :=
  (200 <=? status_code resp)%Z && (status_code resp <=? 299)%Z.

Definition fetched (resp : HttpResponse) : FetchResult JSON :=
  Responded (ok resp) (Some (body resp)).

Definition fetchedList (resp : HttpResponse) : FetchResult (list JSON) :=
  Responded (ok resp)
            (match body resp with
             | JArr items => Some items
             | _ => None
             end).

(** *** Properties *)

(** A removal that the server confirms takes every report with that id
    off the list and leaves the others where they are, in their order;
    confirmed once more, it changes nothing. A removal that is not
    confirmed (the request is rejected, or answered with a status
    outside 200 to 299, as for a report that is not found) leaves the
    list as it is. *)
Theorem removeReport_removes_exactly
    (id : string) (r : FetchResult unit) (s : HookState) :
  let s' := removeReport_settled id r s in
  (forall j, In j (reports s') -> In j (reports s)) /\
  (match r with
   | Responded true _ =>
       (forall j, In j (reports s') <-> In j (reports s) /\ hasId id j = false) /\
       (forall a b l1 l2 l3,
          reports s' = l1 ++ a :: l2 ++ b :: l3 ->
          exists m1 m2 m3, reports s = m1 ++ a :: m2 ++ b :: m3) /\
       removeReport_settled id r s' = s'
   | _ => s' = s
   end) /\
  isLoaded s' = isLoaded s /\ isSubmitting s' = isSubmitting s.
Proof.
  cbv zeta. destruct r as [|[|] json]; cbn.
  - repeat split; auto.
  - split; [intros j Hj; apply filter_In in Hj; tauto|].
    split; [|auto]. split; [|split].
    + intros j. rewrite filter_In, negb_true_iff. tauto.
    + induction (reports s) as [|x l IH]; intros a b l1 l2 l3 H.
      * destruct l1; discriminate H.
      * cbn in H. destruct (negb (hasId id x)).
        -- destruct l1 as [|y l1]; cbn in H; injection H as <- H.
           ++ clear IH. exists [].
              assert (Hb : In b (filter (fun r => negb (hasId id r)) l))
                by (rewrite H; apply in_or_app; right; now left).
              apply filter_In in Hb as [Hb _].
              apply in_split in Hb as (m2 & m3 & ->).
              exists m2, m3. reflexivity.
           ++ destruct (IH _ _ _ _ _ H) as (m1 & m2 & m3 & ->).
              exists (x :: m1), m2, m3. reflexivity.
        -- destruct (IH _ _ _ _ _ H) as (m1 & m2 & m3 & ->).
           exists (x :: m1), m2, m3. reflexivity.
    + unfold setReports. cbn. f_equal.
      induction (reports s) as [|x l IH]; [reflexivity|].
      cbn. destruct (negb (hasId id x)) eqn:E; cbn; [rewrite E|];
        congruence.
  - repeat split; auto.
Qed.

(** Adding a report and then removing it gives the list back, when no
    report on the list had that id: the new report is put in front, and
    the removal takes exactly it off again. *)
Theorem add_then_remove_restores
    (newReport : JSON) (id : string) (s : HookState) :
  hasId id newReport = true ->
  Forall (fun j => hasId id j = false) (reports s) ->
  let (s1, result) :=
    addReport_settled (Responded true (Some newReport)) (addReport_started s) in
  result = Some newReport /\
  reports s1 = newReport :: reports s /\
  reports (removeReport_settled id (Responded true None) s1) = reports s.
Proof.
  intros Hid Hall. cbn. repeat split.
  rewrite Hid. cbn.
  induction Hall as [|x l Hx _ IH]; [reflexivity|].
  cbn. rewrite Hx. cbn. now rewrite IH.
Qed.

Section Store.

Variable ObjectId : Type.
Variable oid_eqb : ObjectId -> ObjectId -> bool.
Variable oid_toString : ObjectId -> string.
Variable toISOString : Date -> string.
Variable geoIntersects : GeoPolygon -> GeoPoint -> bool.

#[warnings="-notation-for-abbreviation"]
Local Notation POST :=
  (Route.POST ObjectId oid_eqb oid_toString toISOString geoIntersects).
#[warnings="-notation-for-abbreviation"]
Local Notation GET := (Route.GET ObjectId oid_toString toISOString).
#[warnings="-notation-for-abbreviation"]
Local Notation listOf :=
  (fun db => map (transformReport ObjectId oid_toString toISOString)
                 (sort_createdAt_desc ObjectId (Route.reports db))).

(** The hook and the route agree on where a new report goes. When the
    list is what the route lists for the store, and a creation is
    answered with 201 for a report whose creation time is later than that
    of every stored report, then putting the answer in front, as
    addReport does, gives what the route lists afterwards: a refresh
    would change nothing. *)
Theorem addReport_agrees_with_refresh
    (env : Env ObjectId) (reportData : Body)
    (db db' : Database ObjectId) (resp : HttpResponse) (s : HookState) :
  POST env (Some reportData) db = (db', resp) ->
  status_code resp = 201%Z ->
  Forall (fun o => (createdAt ObjectId o < now ObjectId env)%Z)
         (Route.reports db) ->
  reports s = listOf db ->
  let (s', result) :=
    addReport_settled (fetched resp) (addReport_started s) in
  result = Some (body resp) /\
  reports s' = body resp :: reports s /\
  reports s' = listOf db' /\
  isSubmitting s' = false /\
  refreshReports_settled (fetchedList (GET true db')) s' = s'.
Proof.
  intros H Hs Hnew Hsync.
  destruct (POST_201_inv _ _ _ _ _ _ _ _ _ _ H Hs)
    as (b & Hb & _ & _ & -> & ->).
  injection Hb as <-.
  assert (Ht : transformReport ObjectId oid_toString toISOString
                 (persisted ObjectId oid_toString geoIntersects env reportData db)
               = createdReport ObjectId oid_toString toISOString
                   (generated ObjectId env)
                   (persisted ObjectId oid_toString geoIntersects env reportData db)
                   (coordinates reportData)).
  { unfold persisted.
    destruct (findMatchingArea ObjectId geoIntersects db
                (newReport ObjectId (now ObjectId env) reportData));
      reflexivity. }
  assert (Hl : listOf
                 (mkDb (areas db)
                       (Route.reports db ++
                        [persisted ObjectId oid_toString geoIntersects env
                                   reportData db]))
               = createdReport ObjectId oid_toString toISOString
                   (generated ObjectId env)
                   (persisted ObjectId oid_toString geoIntersects env reportData db)
                   (coordinates reportData) :: reports s).
  { cbn [Route.reports]. rewrite sort_createdAt_desc_newest.
    - cbn [map]. rewrite Ht, Hsync. reflexivity.
    - eapply Forall_impl; [|exact Hnew]. intros o Ho.
      unfold persisted. 
      destruct (findMatchingArea ObjectId geoIntersects db
                  (newReport ObjectId (now ObjectId env) reportData));
        exact Ho. }
  unfold fetched, ok, addReport_settled, addReport_started,
         refreshReports_settled, fetchedList, Route.GET,
         setIsSubmitting, setReports.
  cbn -[sort_createdAt_desc transformReport createdReport persisted].
  repeat split.
  - symmetry. exact Hl.
  - f_equal. exact Hl.
Qed.

End Store.

(** *** Sample data: the hook against the sample store of the route *)
Module Sample.
Import Route.Sample.

(** The hook after it has loaded the list of the store that holds one
    report. *)
Definition loaded : HookState :=
  fetchReports_settled (fetchedList (GET true oneReportStore)) initialState.

Definition curbReport : JSON :=
  body (snd (POST arrival (Some (bodyAt marketStreet "curb.jpg"))
                  oneReportStore)).

Lemma add_then_remove_restores_witness :
  hasId "b2" curbReport = true /\
  reports (fst (addReport_settled (Responded true (Some curbReport))
                                  (addReport_started loaded)))
    = curbReport :: reports loaded /\
  reports (removeReport_settled "b2" (Responded true None)
             (fst (addReport_settled (Responded true (Some curbReport))
                                     (addReport_started loaded))))
    = reports loaded.
Proof.
  split; [reflexivity|].
  pose proof (add_then_remove_restores curbReport "b2" loaded eq_refl) as H.
  destruct (addReport_settled (Responded true (Some curbReport))
                              (addReport_started loaded)) as [s1 result].
  cbn [fst].
  apply H. vm_compute. repeat constructor.
Defined.

Lemma addReport_agrees_with_refresh_witness :
  let db' := fst (POST arrival (Some (bodyAt marketStreet "curb.jpg"))
                       oneReportStore) in
  let s' := fst (addReport_settled (fetched (snd (POST arrival
                     (Some (bodyAt marketStreet "curb.jpg")) oneReportStore)))
                   (addReport_started loaded)) in
  List.length (reports loaded) = 1%nat /\
  reports s' = curbReport :: reports loaded /\
  reports s' =
    map (transformReport N hexString msString)
        (sort_createdAt_desc N (Route.reports db')) /\
  refreshReports_settled (fetchedList (GET true db')) s' = s'.
Proof.
  cbv zeta. split; [reflexivity|].
  pose proof (addReport_agrees_with_refresh
                N N.eqb hexString msString boxContains
                arrival (bodyAt marketStreet "curb.jpg") oneReportStore
                _ _ loaded (surjective_pairing _) eq_refl) as H.
  destruct (addReport_settled _ _) as [s' result] in H |- *.
  cbn [fst].
  destruct H as (_ & H2 & H3 & _ & H5).
  - vm_compute. repeat constructor.
  - reflexivity.
  - exact (conj H2 (conj H3 H5)).
Defined.

End Sample.

End Hook.
